(** * async_request_throttler: the sliding-window throttler and its consume loop

    A shallow embedding of [src/async_throttler.py] (classes [RequestWrapper]
    and [AsyncThrottler]) and the properties of its specification.

    Modelling conventions.
    - The code computes with binary64 floats.  [evict_in] and [throttle_in]
      are the eviction loop and [throttle] over any arithmetic (a type of
      times, the subtraction and the comparisons the code uses); what is
      proved of them assumes nothing of the arithmetic, and
      [evict_binary64], [throttle_binary64] instantiate them at binary64.
    - The run model ([evict], [throttle], [iteration], [run]) is the instance
      at exact integers (ticks of an arbitrary unit), as [throttle_exact]
      states; it is used for what depends on order, length, emptiness and
      raising only, and for inputs on which binary64 is exact.
    - The event loop's clock, the number of fetches issued so far and the
      observable trace (dispatches, callback invocations, printed lines) form
      the [World], threaded explicitly through every coroutine.
    - [asyncio.sleep d] advances the clock by exactly [d].
    - The aiohttp transport is an oracle: the [n]-th [session.get] of the run,
      for a given url, either raises or yields a response (status, text) after
      some latency.  A [ClientSession()] built with default arguments does not
      raise on a non-2xx status, so a status is data of a response.
    - An exception is an instance of Python's [Exception]; signals deriving
      from [BaseException] only (task cancellation, keyboard interrupt) are
      outside the model.
    - Queue elements are [RequestWrapper] objects or the string ["STOP"]. *)

From Stdlib Require Import PrimFloat ZArith String List Bool Lia Sorted.
Import ListNotations.
Open Scope Z_scope.
Set Warnings "-inexact-float".

(** ** Exceptions and results *)

Inductive exn : Type :=
| IndexError                (* deque index out of range *)
| Error (msg : string).     (* any other Exception, with its message *)

Inductive result (A : Type) : Type :=
| Return (a : A)
| Raise (e : exn).
Arguments Return {A} a.
Arguments Raise {A} e.

(** ** The transport and the observable trace *)

Record ClientResponse : Type := {
  status : Z;
  text : result string        (* [await response.text()] *)
}.

Record Reply : Type := {
  answer : result ClientResponse;   (* [session.get(url)] *)
  latency : nat                     (* time the fetch takes *)
}.

Inductive line : Type :=
| Stopping                                   (* "Stopping request processing." *)
| Completed (url : string) (status : Z)      (* "Request to .. completed with status .." *)
| Fetch_error (url : string) (e : exn).      (* "Error fetching ..: .." *)

Inductive event : Type :=
| Dispatch (n : nat) (url : string) (t : Z)  (* n-th [session.get], at time t *)
| Callback (n : nat) (data : string)         (* callback of the n-th fetch called *)
| Print (l : line).

Record World : Type := {
  clock : Z;
  fetches : nat;
  trace : list event
}.

Definition sleep (d : Z) (w : World) : World :=
  {| clock := clock w + d; fetches := fetches w; trace := trace w |}.

Definition emit (e : event) (w : World) : World :=
  {| clock := clock w; fetches := fetches w; trace := trace w ++ [e] |}.

Definition print (l : line) (w : World) : World := emit (Print l) w.

Definition count_fetch (w : World) : World :=
  {| clock := clock w; fetches := S (fetches w); trace := trace w |}.

(** ** RequestWrapper *)

Record RequestWrapper : Type := {
  url : string;
  callback : option (string -> result unit)
}.

(** [handle_response] for the [n]-th fetch: read the body, then call the
    callback when there is one. *)
Definition handle_response (n : nat) (self : RequestWrapper)
    (response : ClientResponse) (w : World) : World * result unit :=
  match text response with
  | Raise e => (w, Raise e)
  | Return data =>
      match callback self with
      | Some cb => (emit (Callback n data) w, cb data)
      | None => (w, Return tt)
      end
  end.

(** ** AsyncThrottler *)

Inductive item : Type :=
| STOP
| Request (r : RequestWrapper).

Record AsyncThrottler : Type := {
  max_requests : Z;
  time_window : Z;
  request_times : list Z;      (* deque, oldest first *)
  queue : list item;           (* asyncio.Queue, head first *)
  stop_signal_received : bool
}.

Definition __init__ (max_requests time_window : Z) : result AsyncThrottler :=
  Return {| max_requests := max_requests;
            time_window := time_window;
            request_times := [];
            queue := [];
            stop_signal_received := false |}.

Definition set_request_times (self : AsyncThrottler) (ts : list Z) : AsyncThrottler :=
  {| max_requests := max_requests self;
     time_window := time_window self;
     request_times := ts;
     queue := queue self;
     stop_signal_received := stop_signal_received self |}.

Definition set_queue (self : AsyncThrottler) (q : list item) : AsyncThrottler :=
  {| max_requests := max_requests self;
     time_window := time_window self;
     request_times := request_times self;
     queue := q;
     stop_signal_received := stop_signal_received self |}.

Definition set_stop_signal_received (self : AsyncThrottler) (b : bool) : AsyncThrottler :=
  {| max_requests := max_requests self;
     time_window := time_window self;
     request_times := request_times self;
     queue := queue self;
     stop_signal_received := b |}.

(** The eviction loop of [throttle]:
    [while request_times and current_time - request_times[0] >= time_window:
       request_times.popleft()]. *)
Fixpoint evict (time_window current_time : Z) (times : list Z) : list Z :=
  match times with
  | [] => []
  | t0 :: rest =>
      if current_time - t0 >=? time_window
      then evict time_window current_time rest
      else times
  end.

(** [throttle]: the object and the world after the call, and whether the call
    returned or raised.  The timestamp appended is the one read on entry. *)
Definition throttle (self : AsyncThrottler) (w : World)
    : AsyncThrottler * World * result unit :=
  let current_time := clock w in
  let self1 := set_request_times self
                 (evict (time_window self) current_time (request_times self)) in
  if Z.of_nat (length (request_times self1)) >=? max_requests self1 then
    match request_times self1 with
    | [] => (self1, w, Raise IndexError)
    | t0 :: _ =>
        let time_to_wait := time_window self1 - (current_time - t0) in
        let w1 := sleep (Z.max 0 time_to_wait) w in
        (set_request_times self1 (request_times self1 ++ [current_time]), w1, Return tt)
    end
  else
    (set_request_times self1 (request_times self1 ++ [current_time]), w, Return tt).

Definition add_request (self : AsyncThrottler) (request : item) : AsyncThrottler :=
  set_queue self (queue self ++ [request]).

Section Transport.

(** The [n]-th fetch of the run, asked for [url]. *)
Variable transport : nat -> string -> Reply.

(** [make_request]: the whole body is inside [try .. except Exception], so
    the call itself never raises. *)
Definition make_request (request_wrapper : RequestWrapper) (w : World) : World :=
  let n := fetches w in
  let reply := transport n (url request_wrapper) in
  let w1 := sleep (Z.of_nat (latency reply))
              (count_fetch (emit (Dispatch n (url request_wrapper) (clock w)) w)) in
  match answer reply with
  | Raise e => print (Fetch_error (url request_wrapper) e) w1
  | Return response =>
      match handle_response n request_wrapper response w1 with
      | (w2, Return _) => print (Completed (url request_wrapper) (status response)) w2
      | (w2, Raise e) => print (Fetch_error (url request_wrapper) e) w2
      end
  end.

(** ** The consume loop as a transition system *)

(** The [process_requests] task: inside the loop, returned, or ended by an
    exception escaping the loop. *)
Inductive Task : Type :=
| Running
| Finished
| Failed (e : exn).

Record Sys : Type := {
  obj : AsyncThrottler;
  world : World;
  task : Task
}.

(** One pass of [while not stop_signal_received or not queue.empty()]: the
    test, [queue.get()], and the body.  With an empty queue and no stop signal
    the task stays suspended in [queue.get()]. *)
Definition iteration (s : Sys) : Sys :=
  match task s with
  | Running =>
      if negb (stop_signal_received (obj s))
         || negb (match queue (obj s) with [] => true | _ => false end)
      then
        match queue (obj s) with
        | [] => s
        | request :: rest =>
            let self := set_queue (obj s) rest in
            match request with
            | STOP =>
                {| obj := set_stop_signal_received self true;
                   world := print Stopping (world s);
                   task := Running |}
            | Request r =>
                match throttle self (world s) with
                | (self1, w1, Return _) =>
                    {| obj := self1; world := make_request r w1; task := Running |}
                | (self1, w1, Raise e) =>
                    {| obj := self1; world := w1; task := Failed e |}
                end
            end
        end
      else {| obj := obj s; world := world s; task := Finished |}
  | _ => s
  end.

(** What happens around the consumer: a producer's [add_request], a pass of
    the consumer, or time going by. *)
Inductive action : Type :=
| Push (request : item)
| Step
| Tick (d : nat).

Definition perform (a : action) (s : Sys) : Sys :=
  match a with
  | Push request =>
      {| obj := add_request (obj s) request; world := world s; task := task s |}
  | Step => iteration s
  | Tick d =>
      {| obj := obj s; world := sleep (Z.of_nat d) (world s); task := task s |}
  end.

Fixpoint run (schedule : list action) (s : Sys) : Sys :=
  match schedule with
  | [] => s
  | a :: rest => run rest (perform a s)
  end.

(** [process_requests] started at time [t0] on a given object. *)
Definition start (self : AsyncThrottler) (t0 : Z) : Sys :=
  {| obj := self;
     world := {| clock := t0; fetches := 0; trace := [] |};
     task := Running |}.

(** [process_requests] run for [n] passes with no producer active. *)
Definition process_requests (n : nat) (s : Sys) : Sys := run (repeat Step n) s.

End Transport.

(** ** Reading a trace *)

Fixpoint dispatches (tr : list event) : list (nat * string * Z) :=
  match tr with
  | [] => []
  | Dispatch n u t :: rest => (n, u, t) :: dispatches rest
  | _ :: rest => dispatches rest
  end.

Fixpoint callbacks (tr : list event) : list (nat * string) :=
  match tr with
  | [] => []
  | Callback n d :: rest => (n, d) :: callbacks rest
  | _ :: rest => callbacks rest
  end.

Fixpoint printed (tr : list event) : list line :=
  match tr with
  | [] => []
  | Print l :: rest => l :: printed rest
  | _ :: rest => printed rest
  end.

Definition dispatch_times (tr : list event) : list Z :=
  map snd (dispatches tr).

Definition dispatched_urls (tr : list event) : list string :=
  map (fun d => snd (fst d)) (dispatches tr).

(** Number of dispatches in the trailing window [(t - T, t]]. *)
Definition in_window (T t : Z) (ts : list Z) : nat :=
  length (filter (fun x => (t - T <? x) && (x <=? t)) ts).

(** The object [__init__] builds. *)
Definition fresh (max_requests time_window : Z) : AsyncThrottler :=
  {| max_requests := max_requests;
     time_window := time_window;
     request_times := [];
     queue := [];
     stop_signal_received := false |}.

(** The timestamps the specification keeps at an admission check: those not
    older than [now - T], that is the closed interval from [now - T]. *)
Definition retained_spec (T now : Z) (times : list Z) : list Z :=
  filter (fun t => now - T <=? t) times.

(** The events one dispatch adds to the trace: the [n]-th fetch, issued at
    time [t] for request [r] and answered by [reply]. *)
Definition request_events (n : nat) (t : Z) (r : RequestWrapper) (reply : Reply)
    : list event :=
  Dispatch n (url r) t ::
  match answer reply with
  | Raise e => [Print (Fetch_error (url r) e)]
  | Return response =>
      match text response with
      | Raise e => [Print (Fetch_error (url r) e)]
      | Return data =>
          match callback r with
          | None => [Print (Completed (url r) (status response))]
          | Some cb =>
              [Callback n data;
               Print (match cb data with
                      | Return _ => Completed (url r) (status response)
                      | Raise e => Fetch_error (url r) e
                      end)]
          end
      end
  end.

(** ** Reading a queue and a schedule *)

Fixpoint requests (q : list item) : list RequestWrapper :=
  match q with
  | [] => []
  | STOP :: rest => requests rest
  | Request r :: rest => r :: requests rest
  end.

Definition work_urls (q : list item) : list string := map url (requests q).

Definition has_stop (q : list item) : bool :=
  existsb (fun it => match it with STOP => true | Request _ => false end) q.

(** The items the producers push during a schedule, in order. *)
Fixpoint pushed (schedule : list action) : list item :=
  match schedule with
  | [] => []
  | Push request :: rest => request :: pushed rest
  | _ :: rest => pushed rest
  end.

(** The handler calls to expect when the requests [rs] are fetched in turn,
    the first of them as fetch number [n]. *)
Fixpoint expected_calls (transport : nat -> string -> Reply) (n : nat)
    (rs : list RequestWrapper) : list (nat * string) :=
  match rs with
  | [] => []
  | r :: rest =>
      callbacks (request_events n 0 r (transport n (url r)))
      ++ expected_calls transport (S n) rest
  end.

(** Producers appending [extra] to the queue. *)
Definition enqueue_all (extra : list item) (s : Sys) : Sys :=
  {| obj := set_queue (obj s) (queue (obj s) ++ extra);
     world := world s;
     task := task s |}.

(** The fetch numbers of the dispatches of a trace, in order. *)
Definition indices (tr : list event) : list nat :=
  map (fun d => fst (fst d)) (dispatches tr).

(** The invariant of serial, first-in first-out dispatch: the urls pushed so
    far, [base], are the dispatched ones, then those lost to an exception
    that ended the task, then the ones still queued; fetches are numbered in
    order; handler calls carry increasing fetch numbers; dispatch times do
    not decrease. *)
Definition serial (base : list string) (s : Sys) : Prop :=
  let tr := trace (world s) in
  (exists lost,
      base = dispatched_urls tr ++ lost ++ work_urls (queue (obj s))
      /\ ((forall e, task s <> Failed e) -> lost = []))
  /\ indices tr = seq 0 (fetches (world s))
  /\ StronglySorted lt (map fst (callbacks tr))
  /\ Forall (fun c => (fst c < fetches (world s))%nat) (callbacks tr)
  /\ StronglySorted Z.le (dispatch_times tr)
  /\ Forall (fun t => t <= clock (world s)) (dispatch_times tr).

(** The urls named by the lines printed for dispatches ("completed" and
    "Error fetching"), in order. *)
Fixpoint reported (tr : list event) : list string :=
  match tr with
  | [] => []
  | Print (Completed u _) :: rest => u :: reported rest
  | Print (Fetch_error u _) :: rest => u :: reported rest
  | _ :: rest => reported rest
  end.

(** ** The limiter over any arithmetic *)

Section Arithmetic.

Variable time : Type.
Variable sub : time -> time -> time.   (* [a - b], as the code computes it *)
Variable geb : time -> time -> bool.   (* [a >= b] *)
Variable gtb : time -> time -> bool.   (* [a > b] *)
Variable zero : time.

(** [max(0, x)]: Python's [max] returns its first argument unless a later one
    is greater. *)
Definition max0 (x : time) : time := if gtb x zero then x else zero.

(** The eviction loop of [throttle]. *)
Fixpoint evict_in (T now : time) (times : list time) : list time :=
  match times with
  | [] => []
  | t0 :: rest =>
      if geb (sub now t0) T then evict_in T now rest else times
  end.

(** [throttle] on the deque [times] at time [now]: the deque left, the
    argument of [asyncio.sleep] when it is called, and whether the call
    returned or raised. *)
Definition throttle_in (N : Z) (T now : time) (times : list time)
    : list time * option time * result unit :=
  let kept := evict_in T now times in
  if Z.of_nat (length kept) >=? N then
    match kept with
    | [] => (kept, None, Raise IndexError)
    | t0 :: _ =>
        let time_to_wait := sub T (sub now t0) in
        (kept ++ [now], Some (max0 time_to_wait), Return tt)
    end
  else (kept ++ [now], None, Return tt).

End Arithmetic.

(** The instance at binary64, the arithmetic of the code. *)
Definition evict_binary64 : float -> float -> list float -> list float :=
  evict_in float PrimFloat.sub (fun a b => PrimFloat.leb b a).

Definition throttle_binary64
    : Z -> float -> float -> list float -> list float * option float * result unit :=
  throttle_in float PrimFloat.sub (fun a b => PrimFloat.leb b a)
    (fun a b => PrimFloat.ltb b a) 0%float.

(** Whether a fetch ends in an exception: [session.get] raises, or reading
    the body does. *)
Definition fetch_raises (reply : Reply) : bool :=
  match answer reply with
  | Raise _ => true
  | Return response =>
      match text response with
      | Raise _ => true
      | Return _ => false
      end
  end.


(** The deque is in time order and holds no timestamp of the future. *)
Definition timed (s : Sys) : Prop :=
  StronglySorted Z.le (request_times (obj s))
  /\ Forall (fun t => t <= clock (world s)) (request_times (obj s)).

(** ** Sample inputs *)

(** A transport that answers every fetch with status [st] and body [body]
    after [lat] ticks. *)
Definition answering (st : Z) (body : string) (lat : nat) : nat -> string -> Reply :=
  fun _ _ => {| answer := Return {| status := st; text := Return body |};
                latency := lat |}.

(** A transport whose [k]-th fetch raises [e] and whose other fetches
    answer 200. *)
Definition failing_at (k : nat) (e : exn) (body : string) (lat : nat)
    : nat -> string -> Reply :=
  fun n _ => if Nat.eqb n k
             then {| answer := Raise e; latency := lat |}
             else {| answer := Return {| status := 200; text := Return body |};
                     latency := lat |}.

(** A transport whose [k]-th fetch answers status [st] and whose other
    fetches answer 200. *)
Definition status_at (k : nat) (st : Z) (body : string) (lat : nat)
    : nat -> string -> Reply :=
  fun n _ => {| answer := Return {| status := if Nat.eqb n k then st else 200;
                                    text := Return body |};
                latency := lat |}.

(** A request whose callback returns normally. *)
Definition plain (u : string) : RequestWrapper :=
  {| url := u; callback := Some (fun _ => Return tt) |}.

(** A request whose callback raises. *)
Definition faulty (u : string) (e : exn) : RequestWrapper :=
  {| url := u; callback := Some (fun _ => Raise e) |}.

(** * Properties *)

(** ** The eviction loop *)

Lemma evict_suffix (T now : Z) (times : list Z) :
  exists gone, times = gone ++ evict T now times
               /\ Forall (fun t => T <= now - t) gone.
Proof.
  induction times as [|t0 rest IH]; simpl.
  - exists []. split; [reflexivity | constructor].
  - destruct (now - t0 >=? T) eqn:E.
    + destruct IH as [gone [Hq Hg]].
      exists (t0 :: gone). split.
      * simpl. f_equal. exact Hq.
      * constructor; [lia | exact Hg].
    + exists []. split; [reflexivity | constructor].
Qed.

Lemma evict_head (T now t0 : Z) (rest times : list Z) :
  evict T now times = t0 :: rest -> now - t0 < T.
Proof.
  induction times as [|a l IH]; simpl; [discriminate|].
  destruct (now - a >=? T) eqn:E; [exact IH|].
  intros H. injection H as -> _. lia.
Qed.

Lemma evict_sorted (T now : Z) (times : list Z) :
  StronglySorted Z.le times -> StronglySorted Z.le (evict T now times).
Proof.
  induction 1 as [|a l Hs IH Ha]; simpl; [constructor|].
  destruct (now - a >=? T); [exact IH | constructor; assumption].
Qed.

Lemma evict_Forall (P : Z -> Prop) (T now : Z) (times : list Z) :
  Forall P times -> Forall P (evict T now times).
Proof.
  induction 1 as [|a l Ha Hl IH]; simpl; [constructor|].
  destruct (now - a >=? T); [exact IH | constructor; assumption].
Qed.

Lemma sorted_snoc (times : list Z) (now : Z) :
  StronglySorted Z.le times -> Forall (fun t => t <= now) times ->
  StronglySorted Z.le (times ++ [now]).
Proof.
  induction 1 as [|a l Hs IH Ha]; intros Hb; simpl.
  - constructor; constructor.
  - inversion Hb; subst. constructor.
    + apply IH. assumption.
    + apply Forall_app. split; [assumption | constructor; [assumption | constructor]].
Qed.

(** ** What [throttle] does to the object and to the clock *)

Lemma throttle_config (self : AsyncThrottler) (w : World) :
  let '(self1, _, _) := throttle self w in
  max_requests self1 = max_requests self
  /\ time_window self1 = time_window self
  /\ queue self1 = queue self
  /\ stop_signal_received self1 = stop_signal_received self.
Proof.
  unfold throttle. simpl.
  destruct (_ >=? _); [destruct (evict _ _ _)|]; simpl; auto.
Qed.

Lemma throttle_world (self : AsyncThrottler) (w : World) :
  let '(_, w1, _) := throttle self w in
  clock w <= clock w1 /\ fetches w1 = fetches w /\ trace w1 = trace w.
Proof.
  unfold throttle. simpl.
  destruct (_ >=? _); [destruct (evict _ _ _)|]; simpl; repeat split; lia.
Qed.

Lemma throttle_times (self : AsyncThrottler) (w : World) :
  let '(self1, _, r) := throttle self w in
  match r with
  | Return _ => request_times self1 =
                evict (time_window self) (clock w) (request_times self) ++ [clock w]
  | Raise _ => request_times self1 =
               evict (time_window self) (clock w) (request_times self)
  end.
Proof.
  unfold throttle. simpl.
  destruct (_ >=? _); [destruct (evict _ _ _)|]; simpl; auto.
Qed.

(** [throttle] raises exactly when the limit is not positive and nothing is
    left in the deque after eviction. *)
Lemma throttle_raises (self : AsyncThrottler) (w : World) (e : exn) :
  snd (throttle self w) = Raise e <->
  e = IndexError /\ max_requests self <= 0
  /\ evict (time_window self) (clock w) (request_times self) = [].
Proof.
  unfold throttle. simpl.
  destruct (_ >=? _) eqn:E.
  - destruct (evict _ _ _) eqn:Ev; simpl in *.
    + split.
      * intros H. injection H as <-. repeat split; lia.
      * intros [-> _]. reflexivity.
    + split; [discriminate | intros [_ [_ H]]; discriminate].
  - simpl. split; [discriminate|].
    intros [_ [Hn Hev]]. rewrite Hev in E. simpl in E. lia.
Qed.

Section Loop.

Variable transport : nat -> string -> Reply.

(** ** What [make_request] does to the world *)

Lemma handle_response_world (n : nat) (r : RequestWrapper)
    (response : ClientResponse) (w : World) :
  let w2 := fst (handle_response n r response w) in
  clock w2 = clock w /\ fetches w2 = fetches w.
Proof.
  unfold handle_response.
  destruct (text response); [destruct (callback r)|]; simpl; auto.
Qed.

Lemma make_request_clock (r : RequestWrapper) (w : World) :
  clock (make_request transport r w) =
  clock w + Z.of_nat (latency (transport (fetches w) (url r))).
Proof.
  unfold make_request.
  destruct (answer _) as [response|e]; [|reflexivity].
  match goal with |- context [handle_response ?n ?r ?p ?w] =>
    pose proof (handle_response_world n r p w) as H;
    destruct (handle_response n r p w) as [w2 [u|e]] end;
    simpl in *; destruct H as [-> _]; reflexivity.
Qed.

Lemma make_request_fetches (r : RequestWrapper) (w : World) :
  fetches (make_request transport r w) = S (fetches w).
Proof.
  unfold make_request.
  destruct (answer _) as [response|e]; [|reflexivity].
  match goal with |- context [handle_response ?n ?r ?p ?w] =>
    pose proof (handle_response_world n r p w) as H;
    destruct (handle_response n r p w) as [w2 [u|e]] end;
    simpl in *; destruct H as [_ ->]; reflexivity.
Qed.

(** ** Invariants of every run *)

Lemma Forall_le_trans (times : list Z) (a b : Z) :
  a <= b -> Forall (fun t => t <= a) times -> Forall (fun t => t <= b) times.
Proof.
  intros Hab H. eapply Forall_impl; [|exact H]. simpl. intros; lia.
Qed.

Lemma iteration_timed (s : Sys) : timed s -> timed (iteration transport s).
Proof.
  intros [Hs Hb]. unfold iteration.
  destruct (task s); try (split; assumption).
  destruct (negb _ || negb _); [|split; assumption].
  destruct (queue (obj s)) as [|request rest]; [split; assumption|].
  destruct request as [|r]; [split; assumption|].
  pose proof (throttle_times (set_queue (obj s) rest) (world s)) as Ht.
  pose proof (throttle_world (set_queue (obj s) rest) (world s)) as Hw.
  destruct (throttle (set_queue (obj s) rest) (world s)) as [[self1 w1] res].
  destruct Hw as [Hc _]. simpl in Ht.
  assert (Hev : Forall (fun t => t <= clock (world s))
                  (evict (time_window (obj s)) (clock (world s)) (request_times (obj s))))
    by (apply evict_Forall; exact Hb).
  assert (Hes : StronglySorted Z.le
                  (evict (time_window (obj s)) (clock (world s)) (request_times (obj s))))
    by (apply evict_sorted; exact Hs).
  destruct res as [u|e]; unfold timed; simpl; rewrite Ht.
  - split.
    + apply sorted_snoc; assumption.
    + rewrite make_request_clock.
      apply Forall_app. split.
      * eapply Forall_le_trans; [|exact Hev]. lia.
      * constructor; [lia | constructor].
  - split; [assumption|].
    eapply Forall_le_trans; [|exact Hev]. lia.
Qed.

Lemma perform_timed (a : action) (s : Sys) : timed s -> timed (perform transport a s).
Proof.
  destruct a as [request| |d]; simpl.
  - intros H. exact H.
  - apply iteration_timed.
  - intros [Hs Hb]. split; simpl; [exact Hs|].
    eapply Forall_le_trans; [|exact Hb]. lia.
Qed.

Lemma run_timed (schedule : list action) (s : Sys) :
  timed s -> timed (run transport schedule s).
Proof.
  revert s. induction schedule as [|a rest IH]; intros s H; simpl; [exact H|].
  apply IH. apply perform_timed. exact H.
Qed.

Lemma start_timed (N T t0 : Z) : timed (start (fresh N T) t0).
Proof. split; simpl; constructor. Qed.

(** The configuration is never written after construction. *)
Lemma iteration_config (s : Sys) :
  max_requests (obj (iteration transport s)) = max_requests (obj s)
  /\ time_window (obj (iteration transport s)) = time_window (obj s).
Proof.
  unfold iteration.
  destruct (task s); auto.
  destruct (negb _ || negb _); auto.
  destruct (queue (obj s)) as [|request rest]; auto.
  destruct request as [|r]; auto.
  pose proof (throttle_config (set_queue (obj s) rest) (world s)) as Hc.
  destruct (throttle (set_queue (obj s) rest) (world s)) as [[self1 w1] res].
  destruct Hc as [H1 [H2 _]]. destruct res; simpl; auto.
Qed.

Lemma run_config (schedule : list action) (s : Sys) :
  max_requests (obj (run transport schedule s)) = max_requests (obj s)
  /\ time_window (obj (run transport schedule s)) = time_window (obj s).
Proof.
  revert s. induction schedule as [|a rest IH]; intros s; simpl; [auto|].
  destruct (IH (perform transport a s)) as [-> ->].
  destruct a; simpl; auto. apply iteration_config.
Qed.

End Loop.

(** ** C7: construction *)

(** C7, as stated, fails: constructing with [max_requests = 0] and
    [time_window = -1] raises nothing and yields an instance. *)
Lemma init_accepts_bad_config :
  __init__ 0 (-1) = Return (fresh 0 (-1)).
Proof. reflexivity. Qed.

(** C7, amended: [__init__] validates nothing; for every [max_requests] and
    [time_window] it returns an instance with an empty deque, an empty queue
    and the stop flag clear, on which the consume loop starts. *)
Theorem init_total (transport : nat -> string -> Reply) (N T t0 : Z) :
  __init__ N T = Return (fresh N T)
  /\ request_times (fresh N T) = []
  /\ queue (fresh N T) = []
  /\ stop_signal_received (fresh N T) = false
  /\ task (run transport [Push STOP; Step]
             (start (fresh N T) t0)) = Running
  /\ task (run transport [Push STOP; Step; Step]
             (start (fresh N T) t0)) = Finished.
Proof. repeat split. Qed.

(** ** C9: indexing the deque *)

(** C9: with [max_requests >= 1] no call of [throttle] indexes an empty
    deque; on a new instance with [max_requests = 0] the first call does, in
    the wait computation; and an [IndexError] is raised only when
    [max_requests <= 0]. *)
Theorem throttle_index_safe :
  (forall self w, 1 <= max_requests self -> snd (throttle self w) = Return tt)
  /\ (forall T w, throttle (fresh 0 T) w = (fresh 0 T, w, Raise IndexError))
  /\ (forall self w e, snd (throttle self w) = Raise e ->
        e = IndexError /\ max_requests self <= 0).
Proof.
  split; [|split].
  - intros self w HN.
    destruct (snd (throttle self w)) as [[]|e] eqn:E; [reflexivity|].
    apply throttle_raises in E. lia.
  - intros T w. reflexivity.
  - intros self w e H. apply throttle_raises in H. tauto.
Qed.

Lemma throttle_index_safe_witness :
  snd (throttle (set_request_times (fresh 1 10) [0])
         {| clock := 3; fetches := 1; trace := [] |}) = Return tt.
Proof.
  apply (proj1 throttle_index_safe). simpl. lia.
Defined.

(** ** C2: the contract of one call *)

(** C2, as stated, fails at the boundary: after one dispatch at time 0 and
    with [time_window = 10], a call at time 10 finds the timestamp 0, which
    is not older than [now - T = 0] and which the specification retains, and
    evicts it. *)
Lemma throttle_evicts_boundary :
  let s := run (answering 200 "ok" 0) [Push (Request (plain "a")); Step; Tick 10]
             (start (fresh 5 10) 0) in
  request_times (obj s) = [0]
  /\ clock (world s) = 10
  /\ retained_spec (time_window (obj s)) (clock (world s)) (request_times (obj s)) = [0]
  /\ evict (time_window (obj s)) (clock (world s)) (request_times (obj s)) = []
  /\ request_times (fst (fst (throttle (obj s) (world s)))) = [10].
Proof. repeat split. Qed.

(** The eviction loop, whatever the arithmetic. *)
Lemma evict_in_prefix (time : Type) (sub : time -> time -> time)
    (geb : time -> time -> bool) (T now : time) (times : list time) :
  exists gone,
    times = gone ++ evict_in time sub geb T now times
    /\ Forall (fun t => geb (sub now t) T = true) gone.
Proof.
  induction times as [|t0 rest IH]; simpl.
  - exists []. split; [reflexivity | constructor].
  - destruct (geb (sub now t0) T) eqn:E.
    + destruct IH as (gone & Hq & Hg). exists (t0 :: gone). split.
      * simpl. f_equal. exact Hq.
      * constructor; assumption.
    + exists []. split; [reflexivity | constructor].
Qed.

Lemma evict_in_head (time : Type) (sub : time -> time -> time)
    (geb : time -> time -> bool) (T now oldest : time) (rest times : list time) :
  evict_in time sub geb T now times = oldest :: rest ->
  geb (sub now oldest) T = false.
Proof.
  induction times as [|t0 l IH]; simpl; [discriminate|].
  destruct (geb (sub now t0) T) eqn:E; [exact IH|].
  intros H. injection H as <- _. exact E.
Qed.

Lemma evict_in_filter (time : Type) (sub : time -> time -> time)
    (geb : time -> time -> bool) (T now : time) (times : list time) :
  StronglySorted
    (fun a b => geb (sub now b) T = true -> geb (sub now a) T = true) times ->
  evict_in time sub geb T now times
  = filter (fun t => negb (geb (sub now t) T)) times.
Proof.
  induction 1 as [|a l Hs IH Ha]; simpl; [reflexivity|].
  destruct (geb (sub now a) T) eqn:E; simpl; [exact IH|].
  f_equal. symmetry. apply forallb_filter_id. apply forallb_forall.
  intros b Hb. rewrite Forall_forall in Ha. specialize (Ha b Hb).
  destruct (geb (sub now b) T); [|reflexivity].
  specialize (Ha eq_refl). congruence.
Qed.

(** The run model is the instance of the limiter at exact integers. *)
Lemma evict_exact (T now : Z) (times : list Z) :
  evict T now times = evict_in Z Z.sub Z.geb T now times.
Proof.
  induction times as [|t0 rest IH]; simpl; [reflexivity|].
  rewrite IH. reflexivity.
Qed.

Lemma throttle_exact (self : AsyncThrottler) (w : World) :
  throttle self w =
  let '(times, wait, r) :=
    throttle_in Z Z.sub Z.geb Z.gtb 0 (max_requests self) (time_window self)
      (clock w) (request_times self) in
  (set_request_times self times,
   match wait with Some d => sleep d w | None => w end,
   r).
Proof.
  unfold throttle, throttle_in. cbv zeta.
  change (evict_in Z Z.sub Z.geb) with evict.
  simpl request_times. simpl max_requests. simpl time_window.
  destruct (Z.of_nat (length (evict (time_window self) (clock w)
                                (request_times self))) >=? max_requests self);
    [|reflexivity].
  destruct (evict (time_window self) (clock w) (request_times self))
    as [|t0 rest]; [reflexivity|].
  simpl. unfold max0.
  replace (if time_window self - (clock w - t0) >? 0
           then time_window self - (clock w - t0) else 0)
    with (Z.max 0 (time_window self - (clock w - t0))); [reflexivity|].
  destruct (time_window self - (clock w - t0) >? 0) eqn:E; lia.
Qed.

(** C2, amended: whatever the arithmetic the subtraction and the
    comparisons are computed in, a call of [throttle] at time [now] first
    pops timestamps off the head of the deque while the test
    [now - t >= time_window] holds: the evicted timestamps are a prefix that
    passes the test, the oldest timestamp kept fails it, and when the test is
    monotone along the deque the evicted ones are exactly those that pass
    it.  Then, with fewer than [max_requests] kept, it records [now] and
    does not sleep; with [max_requests] or more kept and a deque that is not
    empty, which is always so when [max_requests >= 1], it sleeps
    [max(0, time_window - (now - oldest))] and records [now]; with
    [max_requests <= 0] and nothing kept it raises [IndexError]. *)
Theorem throttle_contract (time : Type) (sub : time -> time -> time)
    (geb gtb : time -> time -> bool) (zero : time)
    (N : Z) (T now : time) (times : list time) :
  let test := fun t => geb (sub now t) T in
  let kept := evict_in time sub geb T now times in
  let result := throttle_in time sub geb gtb zero N T now times in
  (exists gone, times = gone ++ kept /\ Forall (fun t => test t = true) gone)
  /\ (forall oldest rest, kept = oldest :: rest -> test oldest = false)
  /\ (StronglySorted (fun a b => test b = true -> test a = true) times ->
      kept = filter (fun t => negb (test t)) times)
  /\ (Z.of_nat (length kept) < N ->
      result = (kept ++ [now], None, Return tt))
  /\ (forall oldest rest, kept = oldest :: rest -> N <= Z.of_nat (length kept) ->
      result =
      (kept ++ [now], Some (max0 time gtb zero (sub T (sub now oldest))),
       Return tt))
  /\ (1 <= N -> N <= Z.of_nat (length kept) ->
      exists oldest rest, kept = oldest :: rest)
  /\ (kept = [] -> N <= 0 -> result = ([], None, Raise IndexError)).
Proof.
  intros test kept result.
  split; [apply evict_in_prefix|].
  split; [intros oldest rest Hk; apply (evict_in_head _ _ _ _ _ _ rest times Hk)|].
  split; [apply evict_in_filter|].
  unfold result, throttle_in. fold kept.
  split; [|split; [|split]].
  - intros Hlt. replace (Z.of_nat (length kept) >=? N) with false by lia.
    reflexivity.
  - intros oldest rest Hk Hge.
    replace (Z.of_nat (length kept) >=? N) with true by lia.
    rewrite Hk. reflexivity.
  - intros HN Hge. destruct kept as [|oldest rest]; [simpl in Hge; lia|].
    exists oldest, rest. reflexivity.
  - intros Hk Hle. rewrite Hk. simpl.
    replace (0 >=? N) with true by lia. reflexivity.
Qed.

Lemma throttle_contract_witness :
  throttle_binary64 5 0.6%float 0.7%float [0.1%float]
  = ([0.7%float], None, Return tt)
  /\ throttle_binary64 1 0.1%float 0.5%float [0.4%float]
     = ([0.4%float; 0.5%float],
        Some (PrimFloat.sub 0.1%float (PrimFloat.sub 0.5%float 0.4%float)),
        Return tt).
Proof.
  split.
  - destruct (throttle_contract float PrimFloat.sub (fun a b => PrimFloat.leb b a)
                (fun a b => PrimFloat.ltb b a) 0%float
                5 0.6%float 0.7%float [0.1%float])
      as (_ & _ & _ & H & _).
    exact (H ltac:(vm_compute; reflexivity)).
  - destruct (throttle_contract float PrimFloat.sub (fun a b => PrimFloat.leb b a)
                (fun a b => PrimFloat.ltb b a) 0%float
                1 0.1%float 0.5%float [0.4%float])
      as (_ & _ & _ & _ & H & _).
    exact (H 0.4%float [] eq_refl ltac:(vm_compute; discriminate)).
Defined.

(** ** Traces *)

Lemma dispatches_app (a b : list event) :
  dispatches (a ++ b) = dispatches a ++ dispatches b.
Proof.
  induction a as [|e a IH]; simpl; [reflexivity|].
  destruct e; simpl; rewrite IH; reflexivity.
Qed.

Lemma callbacks_app (a b : list event) :
  callbacks (a ++ b) = callbacks a ++ callbacks b.
Proof.
  induction a as [|e a IH]; simpl; [reflexivity|].
  destruct e; simpl; rewrite IH; reflexivity.
Qed.

Lemma printed_app (a b : list event) :
  printed (a ++ b) = printed a ++ printed b.
Proof.
  induction a as [|e a IH]; simpl; [reflexivity|].
  destruct e; simpl; rewrite IH; reflexivity.
Qed.

(** What one [make_request] adds to the trace, read off the reply. *)
Lemma make_request_trace (transport : nat -> string -> Reply)
    (r : RequestWrapper) (w : World) :
  trace (make_request transport r w) =
  trace w ++ request_events (fetches w) (clock w) r (transport (fetches w) (url r)).
Proof.
  unfold make_request, request_events, handle_response.
  destruct (answer _) as [response|e]; simpl.
  - destruct (text response) as [data|e]; simpl.
    + destruct (callback r) as [cb|]; simpl.
      * destruct (cb data); simpl; rewrite <- !app_assoc; reflexivity.
      * rewrite <- !app_assoc; reflexivity.
    + rewrite <- !app_assoc; reflexivity.
  - rewrite <- !app_assoc; reflexivity.
Qed.

(** ** C4: the completion handler *)

(** C4, as stated, fails: a response with status 404 is a response, and the
    handler is called with its body. *)
Lemma handler_called_on_404 :
  let w := make_request (answering 404 "not found" 0) (plain "a")
             {| clock := 0; fetches := 0; trace := [] |} in
  callbacks (trace w) = [(0%nat, "not found"%string)]
  /\ printed (trace w) = [Completed "a" 404].
Proof. split; reflexivity. Qed.

(** C4, amended: one [make_request] calls the handler at most once, after the
    dispatch; it calls it exactly when the transport returned a response
    (of whatever status) whose body could be read and the item has a handler,
    and then with that body; when [session.get] or reading the body raises,
    or the item has no handler, it is not called. *)
Theorem handler_at_most_once (transport : nat -> string -> Reply)
    (r : RequestWrapper) (w : World) :
  let n := fetches w in
  let reply := transport n (url r) in
  let w' := make_request transport r w in
  exists calls rest,
    trace w' = trace w ++ Dispatch n (url r) (clock w) :: rest
    /\ callbacks rest = calls
    /\ callbacks (trace w') = callbacks (trace w) ++ calls
    /\ (length calls <= 1)%nat
    /\ (forall e, answer reply = Raise e -> calls = [])
    /\ (forall response e, answer reply = Return response ->
          text response = Raise e -> calls = [])
    /\ (callback r = None -> calls = [])
    /\ (forall response data cb, answer reply = Return response ->
          text response = Return data -> callback r = Some cb ->
          calls = [(n, data)]).
Proof.
  intros n reply w'.
  pose proof (make_request_trace transport r w) as Ht.
  fold n reply w' in Ht. unfold request_events in Ht.
  eexists. eexists. split; [exact Ht|]. split; [reflexivity|].
  split; [rewrite Ht, callbacks_app; reflexivity|].
  destruct (answer reply) as [response|e] eqn:Ea;
    [destruct (text response) as [data|e] eqn:Et;
       [destruct (callback r) as [cb|] eqn:Ec|]|];
    simpl; repeat split; intros; simpl;
    try lia; try reflexivity; try congruence.
Qed.

Lemma handler_at_most_once_witness :
  callbacks (trace (make_request (answering 500 "oops" 2) (plain "a")
                      {| clock := 7; fetches := 3; trace := [] |}))
  = [(3%nat, "oops"%string)].
Proof.
  pose proof (handler_at_most_once (answering 500 "oops" 2) (plain "a")
                {| clock := 7; fetches := 3; trace := [] |}) as H.
  cbv zeta in H.
  destruct H as (calls & rest & _ & _ & Hc & _ & _ & _ & _ & H).
  rewrite Hc. rewrite (H _ _ _ eq_refl eq_refl eq_refl). reflexivity.
Defined.

(** ** C10: a handler that raises *)

(** One pass of the loop on a request, when [throttle] returns. *)
Lemma iteration_request (transport : nat -> string -> Reply)
    (s : Sys) (r : RequestWrapper) (rest : list item) :
  task s = Running -> queue (obj s) = Request r :: rest ->
  snd (throttle (set_queue (obj s) rest) (world s)) = Return tt ->
  iteration transport s =
  {| obj := fst (fst (throttle (set_queue (obj s) rest) (world s)));
     world := make_request transport r
                (snd (fst (throttle (set_queue (obj s) rest) (world s))));
     task := Running |}.
Proof.
  intros Ht Hq Hr. unfold iteration. rewrite Ht, Hq.
  rewrite orb_true_r.
  destruct (throttle (set_queue (obj s) rest) (world s)) as [[self1 w1] res].
  simpl in *. rewrite Hr. reflexivity.
Qed.

(** C10: when the handler of a request raises [e], [make_request] catches
    it and prints the same line as for a fetch that raised [e]; the pass of
    the loop that dispatched the request leaves the task running, with the
    rest of the queue to consume. *)
Theorem handler_exception_caught (transport : nat -> string -> Reply)
    (s : Sys) (r : RequestWrapper) (rest : list item)
    (response : ClientResponse) (data : string)
    (cb : string -> result unit) (e : exn) :
  task s = Running ->
  queue (obj s) = Request r :: rest ->
  snd (throttle (set_queue (obj s) rest) (world s)) = Return tt ->
  answer (transport (fetches (world s)) (url r)) = Return response ->
  text response = Return data ->
  callback r = Some cb ->
  cb data = Raise e ->
  let s' := iteration transport s in
  task s' = Running
  /\ queue (obj s') = rest
  /\ printed (trace (world s')) =
     printed (trace (world s)) ++ [Fetch_error (url r) e]
  /\ callbacks (trace (world s')) =
     callbacks (trace (world s)) ++ [(fetches (world s), data)]
  /\ (forall transport',
        answer (transport' (fetches (world s)) (url r)) = Raise e ->
        printed (trace (world (iteration transport' s))) =
        printed (trace (world s'))).
Proof.
  intros Ht Hq Hr Ha Htx Hc He s'.
  pose proof (throttle_config (set_queue (obj s) rest) (world s)) as Hcfg.
  pose proof (throttle_world (set_queue (obj s) rest) (world s)) as Hw.
  assert (Es' : s' = iteration transport s) by reflexivity.
  rewrite (iteration_request transport s r rest Ht Hq Hr) in Es'.
  destruct (throttle (set_queue (obj s) rest) (world s)) as [[self1 w1] res] eqn:Eth.
  simpl in Es', Hr. destruct Hcfg as (_ & _ & Hq1 & _). destruct Hw as (_ & Hf & Htr).
  rewrite Es'. simpl.
  split; [reflexivity|]. split; [exact Hq1|].
  rewrite make_request_trace, Hf, Htr.
  unfold request_events. rewrite Ha, Htx, Hc, He.
  split; [rewrite printed_app; reflexivity|].
  split; [rewrite callbacks_app; reflexivity|].
  intros transport' Ha'.
  rewrite (iteration_request transport' s r rest Ht Hq); rewrite Eth; [|exact Hr].
  simpl. rewrite make_request_trace, Hf, Htr.
  unfold request_events. rewrite Ha'.
  rewrite !printed_app. reflexivity.
Qed.

Lemma handler_exception_caught_witness :
  let s := start (set_queue (fresh 2 10)
                    [Request (faulty "a" (Error "boom")); Request (plain "b")]) 0 in
  let s' := iteration (answering 200 "ok" 1) s in
  task s' = Running
  /\ queue (obj s') = [Request (plain "b")]
  /\ printed (trace (world s')) = [Fetch_error "a" (Error "boom")].
Proof.
  pose proof (handler_exception_caught (answering 200 "ok" 1)
                (start (set_queue (fresh 2 10)
                          [Request (faulty "a" (Error "boom")); Request (plain "b")]) 0)
                (faulty "a" (Error "boom")) [Request (plain "b")]
                {| status := 200; text := Return "ok"%string |} "ok"%string
                (fun _ => Raise (Error "boom")) (Error "boom")
                eq_refl eq_refl eq_refl eq_refl eq_refl eq_refl eq_refl) as H.
  cbv zeta in H. destruct H as (H1 & H2 & H3 & _).
  split; [exact H1|]. split; [exact H2 | exact H3].
Defined.

(** ** Consuming a queue *)

Section Drain.

Variable transport : nat -> string -> Reply.

Lemma throttle_returns (self : AsyncThrottler) (w : World) :
  1 <= max_requests self -> snd (throttle self w) = Return tt.
Proof.
  intros HN.
  destruct (snd (throttle self w)) as [[]|e] eqn:E; [reflexivity|].
  apply throttle_raises in E. lia.
Qed.

Lemma iteration_stop (s : Sys) (rest : list item) :
  task s = Running -> queue (obj s) = STOP :: rest ->
  iteration transport s =
  {| obj := set_stop_signal_received (set_queue (obj s) rest) true;
     world := print Stopping (world s);
     task := Running |}.
Proof.
  intros Ht Hq. unfold iteration. rewrite Ht, Hq, orb_true_r. reflexivity.
Qed.

Lemma iteration_idle (s : Sys) :
  task s <> Running -> iteration transport s = s.
Proof.
  intros H. unfold iteration. destruct (task s); congruence.
Qed.

(** The loop ends exactly on a pass that finds the stop flag set and the
    queue empty. *)
Lemma iteration_finishes (s : Sys) :
  task s = Running ->
  (task (iteration transport s) = Finished <->
   stop_signal_received (obj s) = true /\ queue (obj s) = []).
Proof.
  intros Ht. unfold iteration. rewrite Ht.
  destruct (stop_signal_received (obj s)); simpl.
  - destruct (queue (obj s)) as [|request rest]; simpl.
    + split; auto.
    + split; [|intros [_ H]; discriminate].
      destruct request as [|r]; simpl; [discriminate|].
      destruct (throttle _ _) as [[self1 w1] [u|e]]; simpl; discriminate.
  - split; [|intros [H _]; discriminate].
    destruct (queue (obj s)) as [|request rest]; simpl; [congruence|].
    destruct request as [|r]; simpl; [discriminate|].
    destruct (throttle _ _) as [[self1 w1] [u|e]]; simpl; discriminate.
Qed.

(** With an empty queue and no stop signal the task waits in [queue.get()]. *)
Lemma iteration_waits (s : Sys) :
  queue (obj s) = [] -> stop_signal_received (obj s) = false ->
  iteration transport s = s.
Proof.
  intros Hq Hf. unfold iteration. rewrite Hq, Hf. simpl.
  destruct (task s); reflexivity.
Qed.

Lemma dispatched_urls_app (a b : list event) :
  dispatched_urls (a ++ b) = dispatched_urls a ++ dispatched_urls b.
Proof. unfold dispatched_urls. rewrite dispatches_app, map_app. reflexivity. Qed.

Lemma dispatches_request_events (n : nat) (t : Z) (r : RequestWrapper) (reply : Reply) :
  dispatches (request_events n t r reply) = [(n, url r, t)].
Proof.
  unfold request_events. simpl.
  destruct (answer reply) as [response|e]; [|reflexivity].
  destruct (text response); [|reflexivity].
  destruct (callback r); reflexivity.
Qed.

(** Consuming the first [length q] items of the queue, when the limit is
    positive: every request among them is dispatched, in order, and the
    task is still running. *)
Lemma drain (q : list item) :
  forall (s : Sys) (q2 : list item),
  task s = Running -> queue (obj s) = q ++ q2 -> 1 <= max_requests (obj s) ->
  let s' := run transport (repeat Step (length q)) s in
  task s' = Running
  /\ queue (obj s') = q2
  /\ stop_signal_received (obj s') = stop_signal_received (obj s) || has_stop q
  /\ fetches (world s') = (fetches (world s) + length (requests q))%nat
  /\ dispatched_urls (trace (world s')) =
     dispatched_urls (trace (world s)) ++ work_urls q
  /\ callbacks (trace (world s')) =
     callbacks (trace (world s))
     ++ expected_calls transport (fetches (world s)) (requests q)
  /\ max_requests (obj s') = max_requests (obj s).
Proof.
  induction q as [|it q IH]; intros s q2 Ht Hq HN; simpl in *.
  - rewrite orb_false_r, Nat.add_0_r, !app_nil_r. repeat split; auto.
  - destruct it as [|r].
    + rewrite (iteration_stop s (q ++ q2) Ht Hq).
      match goal with |- context [run transport _ ?x] => specialize (IH x q2) end.
      simpl in IH. specialize (IH eq_refl eq_refl HN).
      destruct IH as (I1 & I2 & I3 & I4 & I5 & I6 & I7).
      rewrite dispatched_urls_app, callbacks_app in *. simpl in *.
      rewrite app_nil_r in *.
      rewrite I3, orb_true_r. repeat split; auto.
    + assert (Hr : snd (throttle (set_queue (obj s) (q ++ q2)) (world s)) = Return tt)
        by (apply throttle_returns; exact HN).
      rewrite (iteration_request transport s r (q ++ q2) Ht Hq Hr).
      pose proof (throttle_config (set_queue (obj s) (q ++ q2)) (world s)) as Hc.
      pose proof (throttle_world (set_queue (obj s) (q ++ q2)) (world s)) as Hw.
      destruct (throttle (set_queue (obj s) (q ++ q2)) (world s)) as [[self1 w1] res].
      simpl in *. destruct Hc as (C1 & C2 & C3 & C4). destruct Hw as (_ & W2 & W3).
      match goal with |- context [run transport _ ?x] => specialize (IH x q2) end.
      simpl in IH. rewrite C1 in IH. specialize (IH eq_refl C3 HN).
      destruct IH as (I1 & I2 & I3 & I4 & I5 & I6 & I7).
      rewrite make_request_fetches in I4, I6.
      rewrite make_request_trace in I5, I6.
      rewrite dispatched_urls_app in I5. rewrite callbacks_app in I6.
      unfold dispatched_urls in I5 at 3. rewrite dispatches_request_events in I5.
      simpl in I5. rewrite W2, W3 in *.
      unfold work_urls. simpl.
      rewrite I3, C4, I4, I5, I6, <- !app_assoc.
      repeat split; auto; lia.
Qed.

End Drain.

Section Consume.

Variable transport : nat -> string -> Reply.

Lemma run_app (a b : list action) (s : Sys) :
  run transport (a ++ b) s = run transport b (run transport a s).
Proof.
  revert s. induction a as [|x a IH]; intros s; simpl; [reflexivity | apply IH].
Qed.

Lemma process_requests_add (n m : nat) (s : Sys) :
  process_requests transport (n + m) s =
  process_requests transport m (process_requests transport n s).
Proof. unfold process_requests. rewrite repeat_app. apply run_app. Qed.

Lemma iteration_exit (s : Sys) :
  task s = Running -> stop_signal_received (obj s) = true -> queue (obj s) = [] ->
  iteration transport s = {| obj := obj s; world := world s; task := Finished |}.
Proof.
  intros Ht Hf Hq. unfold iteration. rewrite Ht, Hf, Hq. reflexivity.
Qed.

Lemma requests_map_Request (rs : list RequestWrapper) :
  requests (map Request rs) = rs.
Proof. induction rs as [|r rs IH]; simpl; [reflexivity | rewrite IH; reflexivity]. Qed.

Lemma has_stop_map_Request (rs : list RequestWrapper) :
  has_stop (map Request rs) = false.
Proof. induction rs as [|r rs IH]; simpl; [reflexivity | exact IH]. Qed.

Lemma requests_app (a b : list item) :
  requests (a ++ b) = requests a ++ requests b.
Proof.
  induction a as [|it a IH]; simpl; [reflexivity|].
  destruct it; simpl; rewrite IH; reflexivity.
Qed.

Lemma work_urls_app (a b : list item) :
  work_urls (a ++ b) = work_urls a ++ work_urls b.
Proof. unfold work_urls. rewrite requests_app, map_app. reflexivity. Qed.

End Consume.

(** ** C3: stop and drain *)

(** C3, as stated, fails: with the queue [a; STOP; d] the stop signal is
    popped on the second pass, and the third pass dispatches [d]. *)
Lemma dispatch_after_stop :
  let s0 := start (set_queue (fresh 5 10)
                     [Request (plain "a"); STOP; Request (plain "d")]) 0 in
  let s2 := process_requests (answering 200 "ok" 1) 2 s0 in
  let s3 := process_requests (answering 200 "ok" 1) 3 s0 in
  let s4 := process_requests (answering 200 "ok" 1) 4 s0 in
  (stop_signal_received (obj s2) = true
   /\ task s2 = Running
   /\ dispatches (trace (world s2)) = [(0%nat, "a"%string, 0)])
  /\ trace (world s3) =
     [Dispatch 0 "a" 0; Callback 0 "ok"; Print (Completed "a" 200);
      Print Stopping;
      Dispatch 1 "d" 1; Callback 1 "ok"; Print (Completed "d" 200)]
  /\ task s4 = Finished
  /\ trace (world s4) = trace (world s3).
Proof. repeat split. Qed.

(** C3, amended: with a positive limit, every request queued ahead of the
    stop signal is dispatched before the signal is popped; popping it sets
    the flag and ends nothing: the loop goes on to dispatch every request
    still in the queue, those queued behind the signal included, and returns
    on the first pass that finds the flag set and the queue empty. *)
Theorem stop_drains_queue (transport : nat -> string -> Reply)
    (self : AsyncThrottler) (t0 : Z)
    (ahead : list RequestWrapper) (behind : list item) :
  1 <= max_requests self ->
  stop_signal_received self = false ->
  let s0 := start (set_queue self (map Request ahead ++ STOP :: behind)) t0 in
  let s1 := process_requests transport (length ahead) s0 in
  let s2 := process_requests transport 1 s1 in
  let s3 := process_requests transport (length behind) s2 in
  let s4 := process_requests transport 1 s3 in
  (task s1 = Running
   /\ stop_signal_received (obj s1) = false
   /\ queue (obj s1) = STOP :: behind
   /\ dispatched_urls (trace (world s1)) = map url ahead)
  /\ (task s2 = Running
      /\ stop_signal_received (obj s2) = true
      /\ queue (obj s2) = behind
      /\ dispatched_urls (trace (world s2)) = map url ahead)
  /\ (task s3 = Running
      /\ queue (obj s3) = []
      /\ dispatched_urls (trace (world s3)) = map url ahead ++ work_urls behind)
  /\ (task s4 = Finished /\ world s4 = world s3)
  /\ (forall s, task s = Running ->
        (task (iteration transport s) = Finished <->
         stop_signal_received (obj s) = true /\ queue (obj s) = [])).
Proof.
  intros HN Hf s0 s1 s2 s3 s4.
  destruct (drain transport (map Request ahead) s0 (STOP :: behind)
              eq_refl eq_refl HN) as (A1 & A2 & A3 & _ & A5 & _ & A7).
  rewrite length_map in A1, A2, A3, A5, A7.
  fold (process_requests transport (length ahead) s0) in A1, A2, A3, A5, A7.
  fold s1 in A1, A2, A3, A5, A7.
  simpl in A3, A5, A7. rewrite Hf, has_stop_map_Request in A3. simpl in A3.
  unfold work_urls in A5. rewrite requests_map_Request in A5.
  assert (E2 : s2 = {| obj := set_stop_signal_received (set_queue (obj s1) behind) true;
                       world := print Stopping (world s1);
                       task := Running |})
    by (unfold s2, process_requests; simpl; apply iteration_stop; assumption).
  assert (B1 : task s2 = Running) by (rewrite E2; reflexivity).
  assert (B2 : stop_signal_received (obj s2) = true) by (rewrite E2; reflexivity).
  assert (B3 : queue (obj s2) = behind) by (rewrite E2; reflexivity).
  assert (B4 : dispatched_urls (trace (world s2)) = map url ahead).
  { rewrite E2. simpl. rewrite dispatched_urls_app, A5. simpl. apply app_nil_r. }
  assert (B5 : 1 <= max_requests (obj s2)) by (rewrite E2; simpl; lia).
  assert (B3' : queue (obj s2) = behind ++ []) by (rewrite app_nil_r; exact B3).
  destruct (drain transport behind s2 [] B1 B3' B5) as (C1 & C2 & C3 & _ & C5 & _).
  fold (process_requests transport (length behind) s2) in C1, C2, C3, C5.
  fold s3 in C1, C2, C3, C5.
  rewrite B2 in C3. simpl in C3. rewrite B4 in C5.
  assert (E4 : s4 = {| obj := obj s3; world := world s3; task := Finished |})
    by (unfold s4, process_requests; simpl; apply iteration_exit; assumption).
  split; [repeat split; assumption|].
  split; [repeat split; assumption|].
  split; [repeat split; assumption|].
  split; [rewrite E4; split; reflexivity|].
  intros s. apply iteration_finishes.
Qed.

Lemma stop_drains_queue_witness :
  let s0 := start (set_queue (fresh 2 10)
                     [Request (plain "a"); Request (plain "b"); STOP;
                      Request (plain "d")]) 0 in
  let s4 := process_requests (answering 200 "ok" 1) 5 s0 in
  task s4 = Finished
  /\ dispatched_urls (trace (world s4)) = ["a"; "b"; "d"]%string.
Proof.
  pose proof (stop_drains_queue (answering 200 "ok" 1) (fresh 2 10) 0
                [plain "a"; plain "b"] [Request (plain "d")]
                ltac:(simpl; lia) eq_refl) as H.
  cbv zeta in H. destruct H as (_ & _ & (_ & _ & H3) & (H4 & H5) & _).
  split; [exact H4|].
  change (dispatched_urls (trace (world
            (process_requests (answering 200 "ok" 1) 1
               (process_requests (answering 200 "ok" 1) 1
                  (process_requests (answering 200 "ok" 1) 1
                     (process_requests (answering 200 "ok" 1) 2
                        (start (set_queue (fresh 2 10)
                           (map Request [plain "a"; plain "b"]
                            ++ STOP :: [Request (plain "d")])) 0)))))))
          = ["a"; "b"; "d"]%string).
  simpl length in H5. rewrite H5. exact H3.
Defined.

(** ** C5: isolation of failures *)

(** C5, as stated, fails: for the specification a response of non-success
    status is a transport failure, and with the fetch of [b] answered 500 in
    the queue [a; b; c] the handler of [b] is called like the others. *)
Lemma handler_fires_on_failed_status :
  let s := process_requests (status_at 1 500 "oops" 1) 3
             (start (set_queue (fresh 5 10)
                       [Request (plain "a"); Request (plain "b");
                        Request (plain "c")]) 0) in
  task s = Running
  /\ dispatched_urls (trace (world s)) = ["a"; "b"; "c"]%string
  /\ callbacks (trace (world s))
     = [(0%nat, "oops"%string); (1%nat, "oops"%string); (2%nat, "oops"%string)]
  /\ printed (trace (world s))
     = [Completed "a" 200; Completed "b" 500; Completed "c" 200].
Proof. repeat split. Qed.

(** C5, amended: with a positive limit, whatever the transport answers,
    consuming a queue dispatches every request of it in order and leaves the
    task running; in particular, for a queue starting with [A; B; C] where
    the fetch of [B] raises ([session.get] raises or reading the body does)
    and those of [A] and [C] return a readable body, all three are
    dispatched, the handlers of [A] and [C] are called and the handler of
    [B] is not.  A response of non-success status is not a failure. *)
Theorem failure_isolated (transport : nat -> string -> Reply)
    (self : AsyncThrottler) (t0 : Z) :
  1 <= max_requests self ->
  (forall q : list item,
     let s := process_requests transport (length q) (start (set_queue self q) t0) in
     task s = Running
     /\ queue (obj s) = []
     /\ dispatched_urls (trace (world s)) = work_urls q
     /\ callbacks (trace (world s)) = expected_calls transport 0 (requests q))
  /\ (forall (A B C : RequestWrapper) (rest : list item)
        (respA respC : ClientResponse) (dataA dataC : string)
        (cbA cbC : string -> result unit),
      answer (transport 0%nat (url A)) = Return respA ->
      text respA = Return dataA -> callback A = Some cbA ->
      fetch_raises (transport 1%nat (url B)) = true ->
      answer (transport 2%nat (url C)) = Return respC ->
      text respC = Return dataC -> callback C = Some cbC ->
      let s := process_requests transport 3
                 (start (set_queue self
                           (Request A :: Request B :: Request C :: rest)) t0) in
      task s = Running
      /\ queue (obj s) = rest
      /\ dispatched_urls (trace (world s)) = [url A; url B; url C]
      /\ callbacks (trace (world s)) = [(0%nat, dataA); (2%nat, dataC)]).
Proof.
  intros HN. split.
  - intros q s.
    assert (Hq : queue (obj (start (set_queue self q) t0)) = q ++ [])
      by (simpl; rewrite app_nil_r; reflexivity).
    destruct (drain transport q (start (set_queue self q) t0) [] eq_refl Hq HN)
      as (D1 & D2 & _ & _ & D5 & D6 & _).
    repeat split; assumption.
  - intros A B C rest respA respC dataA dataC cbA cbC
           HA HtA HcA HB HC HtC HcC s.
    destruct (drain transport [Request A; Request B; Request C]
                (start (set_queue self
                          (Request A :: Request B :: Request C :: rest)) t0)
                rest eq_refl eq_refl HN)
      as (D1 & D2 & _ & _ & D5 & D6 & _).
    split; [exact D1|]. split; [exact D2|]. split; [exact D5|].
    unfold s, process_requests. simpl length in D6. rewrite D6. simpl.
    unfold request_events. unfold fetch_raises in HB.
    rewrite HA, HtA, HcA, HC, HtC, HcC.
    destruct (answer (transport 1%nat (url B))) as [respB|e];
      [destruct (text respB) as [d|e]; [discriminate|]|]; reflexivity.
Qed.

Lemma failure_isolated_witness :
  let s := process_requests (failing_at 1 (Error "timeout") "ok" 1) 3
             (start (set_queue (fresh 5 10)
                       [Request (plain "a"); Request (plain "b");
                        Request (plain "c"); STOP]) 0) in
  task s = Running
  /\ queue (obj s) = [STOP]
  /\ dispatched_urls (trace (world s)) = ["a"; "b"; "c"]%string
  /\ callbacks (trace (world s)) = [(0%nat, "ok"%string); (2%nat, "ok"%string)].
Proof.
  pose proof (failure_isolated (failing_at 1 (Error "timeout") "ok" 1)
                (fresh 5 10) 0 ltac:(simpl; lia)) as [_ H].
  exact (H (plain "a") (plain "b") (plain "c") [STOP]
           {| status := 200; text := Return "ok"%string |}
           {| status := 200; text := Return "ok"%string |}
           "ok"%string "ok"%string (fun _ => Return tt) (fun _ => Return tt)
           eq_refl eq_refl eq_refl eq_refl eq_refl eq_refl eq_refl).
Defined.

(** ** Items queued behind the ones being consumed *)

Section Frame.

Variable transport : nat -> string -> Reply.

(** A pass that finds something to pop does the same with more items
    queued behind it. *)
Lemma iteration_enqueue (extra : list item) (s : Sys) :
  (task s = Running -> queue (obj s) <> []) ->
  iteration transport (enqueue_all extra s) =
  enqueue_all extra (iteration transport s).
Proof.
  destruct s as [[N T ts q f] w t]. unfold enqueue_all, iteration. simpl.
  intros H. destruct t; try reflexivity.
  destruct q as [|it rest]; [exfalso; apply H; reflexivity|].
  simpl. rewrite !orb_true_r. destruct it as [|r]; [reflexivity|].
  unfold throttle. simpl.
  destruct (_ >=? N); [destruct (evict T (clock w) ts)|]; reflexivity.
Qed.

Lemma iteration_pop (s : Sys) (it : item) (rest : list item) :
  (task s = Running -> queue (obj s) = it :: rest) ->
  task (iteration transport s) = Running ->
  queue (obj (iteration transport s)) = rest.
Proof.
  intros H. unfold iteration.
  destruct (task s) eqn:Ht; try (simpl; congruence).
  rewrite (H eq_refl), orb_true_r.
  destruct it as [|r]; [reflexivity|].
  pose proof (throttle_config (set_queue (obj s) rest) (world s)) as Hc.
  destruct (throttle (set_queue (obj s) rest) (world s)) as [[self1 w1] [u|e]];
    simpl; [|discriminate].
  intros _. tauto.
Qed.

Lemma steps_idle (n : nat) (s : Sys) :
  task s <> Running -> run transport (repeat Step n) s = s.
Proof.
  intros H. induction n as [|n IH]; simpl; [reflexivity|].
  rewrite iteration_idle; assumption.
Qed.

Lemma steps_enqueue (extra q : list item) :
  forall s : Sys,
  (task s = Running -> queue (obj s) = q) ->
  run transport (repeat Step (length q)) (enqueue_all extra s) =
  enqueue_all extra (run transport (repeat Step (length q)) s).
Proof.
  induction q as [|it q IH]; intros s H; simpl; [reflexivity|].
  rewrite iteration_enqueue by (intros Ht; rewrite (H Ht); discriminate).
  apply IH. apply (iteration_pop s it q H).
Qed.

Lemma steps_pop (q : list item) :
  forall s : Sys,
  (task s = Running -> queue (obj s) = q) ->
  task (run transport (repeat Step (length q)) s) = Running ->
  queue (obj (run transport (repeat Step (length q)) s)) = [].
Proof.
  induction q as [|it q IH]; intros s H; simpl; [exact H|].
  apply IH. apply (iteration_pop s it q H).
Qed.

(** Consuming items that are there never ends the loop. *)
Lemma steps_not_finished (q : list item) :
  forall s : Sys,
  (task s = Running -> queue (obj s) = q) ->
  task s <> Finished ->
  task (run transport (repeat Step (length q)) s) <> Finished.
Proof.
  induction q as [|it q IH]; intros s H Hn; simpl; [exact Hn|].
  apply IH; [apply (iteration_pop s it q H)|].
  destruct (task s) eqn:Ht.
  - intros Hf. apply (iteration_finishes transport s Ht) in Hf.
    destruct Hf as [_ Hq]. rewrite (H eq_refl) in Hq. discriminate.
  - congruence.
  - rewrite iteration_idle by congruence. congruence.
Qed.

Lemma trace_stoppings (n : nat) (w : World) :
  trace (Nat.iter n (print Stopping) w) = trace w ++ repeat (Print Stopping) n
  /\ clock (Nat.iter n (print Stopping) w) = clock w
  /\ fetches (Nat.iter n (print Stopping) w) = fetches w.
Proof.
  induction n as [|n (I1 & I2 & I3)]; simpl.
  - rewrite app_nil_r. auto.
  - rewrite I1, I2, I3, <- app_assoc.
    replace (repeat (Print Stopping) n ++ [Print Stopping])
      with (repeat (Print Stopping) (n + 1)) by apply repeat_app.
    rewrite Nat.add_1_r. auto.
Qed.

(** Consuming a queue made of stop signals only. *)
Lemma stops_consumed (n : nat) :
  forall s : Sys,
  task s = Running -> queue (obj s) = repeat STOP (S n) ->
  run transport (repeat Step (S n)) s =
  {| obj := set_stop_signal_received (set_queue (obj s) []) true;
     world := Nat.iter (S n) (print Stopping) (world s);
     task := Running |}.
Proof.
  induction n as [|n IH]; intros s Ht Hq.
  - simpl. apply iteration_stop; assumption.
  - change (run transport (repeat Step (S (S n))) s)
      with (run transport (repeat Step (S n)) (iteration transport s)).
    rewrite (iteration_stop transport s (repeat STOP (S n)) Ht Hq).
    rewrite IH by reflexivity.
    rewrite (Nat.iter_succ_r (S n)). reflexivity.
Qed.

(** Once the task has returned, nothing a schedule does reaches the trace. *)
Lemma finished_stays (schedule : list action) :
  forall s : Sys,
  task s = Finished ->
  task (run transport schedule s) = Finished
  /\ trace (world (run transport schedule s)) = trace (world s).
Proof.
  induction schedule as [|a rest IH]; intros s Ht; simpl; [auto|].
  destruct a as [request| |d]; simpl.
  - apply (IH {| obj := add_request (obj s) request; world := world s; task := task s |}).
    exact Ht.
  - rewrite iteration_idle by congruence. apply IH. exact Ht.
  - apply (IH {| obj := obj s; world := sleep (Z.of_nat d) (world s); task := task s |}).
    exact Ht.
Qed.

(** The run of the loop on [rs] followed by [S n] stop signals, in terms of
    the state [base] reached by consuming [rs] alone. *)
Lemma stops_after_requests (self : AsyncThrottler) (t0 : Z)
    (rs : list RequestWrapper) (n : nat) :
  let base := process_requests transport (length rs)
                (start (set_queue self (map Request rs)) t0) in
  let s := process_requests transport (length rs + (S n + 1))
             (start (set_queue self (map Request rs ++ repeat STOP (S n))) t0) in
  (task base = Running
   /\ s = {| obj := set_stop_signal_received (set_queue (obj base) []) true;
             world := Nat.iter (S n) (print Stopping) (world base);
             task := Finished |})
  \/ ((exists e, task base = Failed e)
      /\ s = enqueue_all (repeat STOP (S n)) base).
Proof.
  intros base s.
  assert (Es : s = process_requests transport (S n + 1)
                     (enqueue_all (repeat STOP (S n)) base)).
  { unfold s. rewrite process_requests_add. f_equal.
    unfold base, process_requests.
    rewrite <- (length_map Request rs).
    rewrite <- steps_enqueue by (intros _; reflexivity).
    reflexivity. }
  destruct (task base) eqn:Ht.
  - left. split; [reflexivity|].
    assert (Hq : queue (obj base) = []).
    { unfold base, process_requests. rewrite <- (length_map Request rs).
      apply steps_pop; [intros _; reflexivity|].
      rewrite length_map. exact Ht. }
    rewrite Es, process_requests_add. unfold process_requests at 2.
    rewrite stops_consumed; [| exact Ht | simpl; rewrite Hq; reflexivity].
    unfold process_requests. simpl run.
    rewrite iteration_exit by reflexivity. reflexivity.
  - exfalso. revert Ht. unfold base, process_requests.
    rewrite <- (length_map Request rs).
    apply steps_not_finished; [intros _; reflexivity | discriminate].
  - right. split; [exists e; reflexivity|].
    rewrite Es. unfold process_requests. apply steps_idle. simpl. congruence.
Qed.

End Frame.

Lemma stoppings_read (n : nat) :
  printed (repeat (Print Stopping) n) = repeat Stopping n
  /\ dispatches (repeat (Print Stopping) n) = []
  /\ callbacks (repeat (Print Stopping) n) = [].
Proof.
  induction n as [|n (I1 & I2 & I3)]; simpl; [auto|].
  rewrite I1. auto.
Qed.

(** ** C8: stopping more than once *)

(** C8: the loop run on the requests [rs] followed by [k + 1] stop signals
    ends as it does with one stop signal: same final task state, same deque,
    same clock, same dispatches and handler calls, and, when it returns,
    [k] more "Stopping" lines and nothing else; with a positive limit it
    returns, having dispatched all of [rs]; having returned, it does nothing
    more whatever is pushed later. *)
Theorem stop_idempotent (transport : nat -> string -> Reply)
    (self : AsyncThrottler) (t0 : Z) (rs : list RequestWrapper) (k : nat) :
  let run_with (n : nat) :=
    process_requests transport (length rs + (n + 1))
      (start (set_queue self (map Request rs ++ repeat STOP n)) t0) in
  let s1 := run_with 1%nat in
  let sk := run_with (S k) in
  task sk = task s1
  /\ request_times (obj sk) = request_times (obj s1)
  /\ stop_signal_received (obj sk) = stop_signal_received (obj s1)
  /\ clock (world sk) = clock (world s1)
  /\ dispatches (trace (world sk)) = dispatches (trace (world s1))
  /\ callbacks (trace (world sk)) = callbacks (trace (world s1))
  /\ printed (trace (world sk)) =
     printed (trace (world s1))
     ++ match task s1 with Finished => repeat Stopping k | _ => [] end
  /\ (1 <= max_requests self ->
      task s1 = Finished
      /\ queue (obj sk) = []
      /\ dispatched_urls (trace (world sk)) = map url rs)
  /\ (forall schedule, task s1 = Finished ->
      task (run transport schedule sk) = Finished
      /\ trace (world (run transport schedule sk)) = trace (world sk)).
Proof.
  intros run_with s1 sk.
  pose proof (stops_after_requests transport self t0 rs 0) as H1.
  pose proof (stops_after_requests transport self t0 rs k) as Hk.
  cbv zeta in H1, Hk. fold (run_with 1%nat) in H1. fold (run_with (S k)) in Hk.
  fold s1 in H1. fold sk in Hk.
  set (base := process_requests transport (length rs)
                 (start (set_queue self (map Request rs)) t0)) in *.
  assert (Htask : task sk = task s1).
  { destruct H1 as [[R1 E1]|[[e1 R1] E1]], Hk as [[Rk Ek]|[[ek Rk] Ek]];
      try congruence; rewrite E1, Ek; reflexivity. }
  split; [exact Htask|].
  destruct H1 as [[R1 E1]|[[e1 R1] E1]], Hk as [[Rk Ek]|[[ek Rk] Ek]];
    try congruence.
  - destruct (trace_stoppings (S k) (world base)) as (Tk & Ck & _).
    destruct (trace_stoppings 1 (world base)) as (T1 & C1 & _).
    destruct (stoppings_read (S k)) as (Pk & Dk & Bk).
    assert (Ws1 : world s1 = Nat.iter 1 (print Stopping) (world base))
      by (rewrite E1; reflexivity).
    assert (Wsk : world sk = Nat.iter (S k) (print Stopping) (world base))
      by (rewrite Ek; reflexivity).
    assert (Ts1 : task s1 = Finished) by (rewrite E1; reflexivity).
    rewrite Ws1, Wsk, Tk, T1, Ck, C1, Ts1.
    rewrite !dispatches_app, !callbacks_app, !printed_app, Pk, Dk, Bk.
    split; [rewrite E1, Ek; reflexivity|].
    split; [rewrite E1, Ek; reflexivity|].
    split; [reflexivity|].
    split; [reflexivity|].
    split; [reflexivity|].
    split; [simpl; rewrite <- app_assoc; reflexivity|].
    split.
    + intros HN. split; [reflexivity|]. split; [rewrite Ek; reflexivity|].
      assert (Hq : queue (obj (start (set_queue self (map Request rs)) t0))
                   = map Request rs ++ [])
        by (simpl; rewrite app_nil_r; reflexivity).
      destruct (drain transport (map Request rs)
                  (start (set_queue self (map Request rs)) t0) []
                  eq_refl Hq HN) as (_ & _ & _ & _ & D5 & _).
      rewrite length_map in D5. fold (process_requests transport (length rs)
        (start (set_queue self (map Request rs)) t0)) in D5. fold base in D5.
      unfold dispatched_urls in *. rewrite dispatches_app, Dk, app_nil_r.
      rewrite D5. simpl. unfold work_urls. rewrite requests_map_Request. reflexivity.
    + intros schedule _. rewrite <- Tk, <- Wsk. apply finished_stays.
      rewrite Ek. reflexivity.
  - assert (Ts1 : task s1 = task base) by (rewrite E1; reflexivity).
    rewrite Ts1, E1, Ek. simpl.
    split; [reflexivity|]. split; [reflexivity|]. split; [reflexivity|].
    split; [reflexivity|]. split; [reflexivity|].
    split; [rewrite R1, app_nil_r; reflexivity|].
    split.
    + intros HN. exfalso. cut (task base = Running); [congruence|].
      assert (Hq : queue (obj (start (set_queue self (map Request rs)) t0))
                   = map Request rs ++ [])
        by (simpl; rewrite app_nil_r; reflexivity).
      destruct (drain transport (map Request rs)
                  (start (set_queue self (map Request rs)) t0) []
                  eq_refl Hq HN) as (D1 & _).
      rewrite length_map in D1. exact D1.
    + intros schedule Hf. congruence.
Qed.

Lemma stop_idempotent_witness :
  let s1 := process_requests (answering 200 "ok" 1) 4
              (start (set_queue (fresh 5 10)
                        [Request (plain "a"); Request (plain "b"); STOP]) 0) in
  let s3 := process_requests (answering 200 "ok" 1) 6
              (start (set_queue (fresh 5 10)
                        [Request (plain "a"); Request (plain "b");
                         STOP; STOP; STOP]) 0) in
  task s1 = Finished
  /\ queue (obj s3) = []
  /\ dispatched_urls (trace (world s3)) = ["a"; "b"]%string.
Proof.
  pose proof (stop_idempotent (answering 200 "ok" 1) (fresh 5 10) 0
                [plain "a"; plain "b"] 2) as H.
  cbv zeta in H. destruct H as (_ & _ & _ & _ & _ & _ & _ & H & _).
  exact (H ltac:(simpl; lia)).
Defined.

(** ** Serial dispatch in queue order *)

Section Serial.

Variable transport : nat -> string -> Reply.

Lemma StronglySorted_snoc {A : Type} (R : A -> A -> Prop) (l : list A) (a : A) :
  StronglySorted R l -> Forall (fun x => R x a) l -> StronglySorted R (l ++ [a]).
Proof.
  induction 1 as [|b l Hs IH Hb]; intros Ha; simpl.
  - constructor; constructor.
  - inversion Ha; subst. constructor.
    + apply IH. assumption.
    + apply Forall_app. split; [assumption | constructor; [assumption | constructor]].
Qed.

Lemma callbacks_of_request (n : nat) (t : Z) (r : RequestWrapper) (reply : Reply) :
  callbacks (request_events n t r reply) = []
  \/ exists data, callbacks (request_events n t r reply) = [(n, data)].
Proof.
  unfold request_events. simpl.
  destruct (answer reply) as [response|e]; [|left; reflexivity].
  destruct (text response) as [data|e]; [|left; reflexivity].
  destruct (callback r); [right; exists data|left]; reflexivity.
Qed.

Lemma serial_stay (base : list string) (s : Sys) (o : AsyncThrottler) (k : Task) :
  queue o = queue (obj s) ->
  ((forall e, k <> Failed e) -> forall e, task s <> Failed e) ->
  serial base s -> serial base {| obj := o; world := world s; task := k |}.
Proof.
  intros Hq Hk (H1 & H2). split; [|exact H2].
  destruct H1 as (lost & Hb & Hl). exists lost. simpl. rewrite Hq.
  split; [exact Hb | auto].
Qed.

Lemma iteration_serial (base : list string) (s : Sys) :
  serial base s -> serial base (iteration transport s).
Proof.
  intros H. unfold iteration.
  destruct (task s) eqn:Ht; try exact H.
  destruct (negb _ || negb _);
    [|apply serial_stay; [reflexivity | intros _ e; congruence | exact H]].
  destruct (queue (obj s)) as [|request rest] eqn:Hq; [exact H|].
  destruct H as ((lost & Hb & Hl) & Hi & Hc & Hcf & Hd & Hdc).
  assert (Hlost : lost = []) by (apply Hl; intros e; congruence).
  subst lost. simpl in Hb. rewrite Hq in Hb.
  destruct request as [|r].
  - (* the stop signal *)
    unfold serial. simpl.
    unfold indices, dispatch_times, dispatched_urls.
    rewrite dispatches_app, callbacks_app. simpl. rewrite !app_nil_r.
    repeat split; try assumption.
    exists []. split; [exact Hb | reflexivity].
  - pose proof (throttle_config (set_queue (obj s) rest) (world s)) as Hcfg.
    pose proof (throttle_world (set_queue (obj s) rest) (world s)) as Hw.
    destruct (throttle (set_queue (obj s) rest) (world s)) as [[self1 w1] [u|e]].
    + (* the request is dispatched *)
      destruct Hcfg as (_ & _ & Q1 & _). destruct Hw as (W1 & W2 & W3).
      simpl in Q1.
      unfold serial. simpl.
      rewrite make_request_trace, make_request_fetches, make_request_clock, W2, W3.
      unfold indices, dispatch_times, dispatched_urls in *.
      rewrite dispatches_app, callbacks_app, dispatches_request_events.
      pose proof (callbacks_of_request (fetches (world s)) (clock w1) r
                    (transport (fetches (world s)) (url r))) as Hcb.
      remember (callbacks (request_events (fetches (world s)) (clock w1) r
                             (transport (fetches (world s)) (url r)))) as cbs eqn:Ecbs.
      clear Ecbs.
      rewrite !map_app. simpl map. rewrite Q1.
      split; [|split; [|split; [|split; [|split]]]].
      * exists []. split; [|reflexivity].
        rewrite Hb. unfold work_urls. simpl. rewrite <- app_assoc. reflexivity.
      * rewrite Hi, seq_S. reflexivity.
      * destruct Hcb as [E|[data E]]; rewrite E; simpl.
        -- rewrite app_nil_r. exact Hc.
        -- apply StronglySorted_snoc; [exact Hc|].
           apply Forall_map. exact Hcf.
      * apply Forall_app. split.
        -- eapply Forall_impl; [|exact Hcf]. simpl. intros; lia.
        -- destruct Hcb as [E|[data E]]; rewrite E; [constructor|].
           constructor; [simpl; lia | constructor].
      * apply StronglySorted_snoc; [exact Hd|].
        eapply Forall_le_trans; [|exact Hdc]. exact W1.
      * apply Forall_app. split.
        -- eapply Forall_le_trans; [|exact Hdc]. lia.
        -- constructor; [lia | constructor].
    + (* [throttle] raises and the task ends *)
      destruct Hcfg as (_ & _ & Q1 & _). destruct Hw as (W1 & W2 & W3).
      simpl in Q1.
      unfold serial. simpl. rewrite W2, W3, Q1.
      split; [|split; [|split; [|split; [|split]]]]; try assumption.
      * exists [url r]. split; [exact Hb|].
        intros Hn. exfalso. apply (Hn e). reflexivity.
      * eapply Forall_le_trans; [|exact Hdc]. exact W1.
Qed.

Lemma perform_serial (base : list string) (a : action) (s : Sys) :
  serial base s -> serial (base ++ work_urls (pushed [a])) (perform transport a s).
Proof.
  destruct a as [request| |d]; simpl.
  - intros ((lost & Hb & Hl) & H2). split; [|exact H2].
    exists lost. simpl. split; [|exact Hl].
    rewrite work_urls_app, Hb, <- !app_assoc. reflexivity.
  - rewrite app_nil_r. apply iteration_serial.
  - rewrite app_nil_r. intros (H1 & Hi & Hc & Hcf & Hd & Hdc).
    unfold serial. simpl. repeat split; try assumption.
    eapply Forall_le_trans; [|exact Hdc]. lia.
Qed.

Lemma pushed_app (a b : list action) : pushed (a ++ b) = pushed a ++ pushed b.
Proof.
  induction a as [|x a IH]; simpl; [reflexivity|].
  destruct x; simpl; rewrite IH; reflexivity.
Qed.

Lemma run_serial (schedule : list action) :
  forall (base : list string) (s : Sys),
  serial base s ->
  serial (base ++ work_urls (pushed schedule)) (run transport schedule s).
Proof.
  induction schedule as [|a rest IH]; intros base s H; simpl run.
  - simpl. rewrite app_nil_r. exact H.
  - change (a :: rest) with ([a] ++ rest).
    rewrite pushed_app, work_urls_app, app_assoc.
    apply IH. apply perform_serial. exact H.
Qed.

Lemma start_serial (N T t0 : Z) : serial [] (start (fresh N T) t0).
Proof.
  unfold serial. simpl. repeat split; try constructor.
  exists []. split; reflexivity.
Qed.









End Serial.

(** ** C6: first in, first dispatched *)



(** ** C1: the sliding window *)

(** C1 fails on the code: with [max_requests = 1], [time_window = 10] and
    fetches that take one tick, the requests [a], [b], [c] are dispatched at
    times 0, 10 and 11, the consumer sleeping exactly as long as [throttle]
    asks: two dispatches fall in the window ending at time 11.  The second
    call records the time 1 it read before sleeping, not the time 10 of the
    dispatch, so both recorded timestamps are gone by time 11 and the third
    call does not wait. *)
Theorem window_exceeded :
  let s0 := start (set_queue (fresh 1 10)
                     [Request (plain "a"); Request (plain "b");
                      Request (plain "c"); STOP]) 0 in
  let s2 := process_requests (answering 200 "ok" 1) 2 s0 in
  let s := process_requests (answering 200 "ok" 1) 5 s0 in
  task s = Finished
  /\ max_requests (obj s) = 1
  /\ time_window (obj s) = 10
  /\ request_times (obj s2) = [0; 1]
  /\ dispatch_times (trace (world s2)) = [0; 10]
  /\ dispatch_times (trace (world s)) = [0; 10; 11]
  /\ in_window 10 11 (dispatch_times (trace (world s))) = 2%nat
  /\ max_requests (obj s)
     < Z.of_nat (in_window (time_window (obj s)) 11 (dispatch_times (trace (world s)))).
Proof. repeat split. Qed.

(** * Further properties of the throttler and of the loop *)

(** ** The three ways a call of [throttle] can go *)

(** In the run model, on a deque with no timestamp of the future,
    [throttle] either admits at once, or sleeps on the oldest kept
    timestamp, or raises on an empty deque. *)
Lemma throttle_shape (self : AsyncThrottler) (w : World) :
  Forall (fun t => t <= clock w) (request_times self) ->
  let kept := evict (time_window self) (clock w) (request_times self) in
  (Z.of_nat (length kept) < max_requests self
   /\ throttle self w =
      (set_request_times self (kept ++ [clock w]), w, Return tt))
  \/ (max_requests self <= Z.of_nat (length kept)
      /\ exists oldest rest,
           kept = oldest :: rest
           /\ clock w - time_window self < oldest <= clock w
           /\ throttle self w =
              (set_request_times self (kept ++ [clock w]),
               sleep (time_window self - (clock w - oldest)) w, Return tt))
  \/ (max_requests self <= 0
      /\ kept = []
      /\ throttle self w = (set_request_times self [], w, Raise IndexError)).
Proof.
  intros Hb kept.
  pose proof (evict_Forall _ (time_window self) (clock w) _ Hb) as Hk.
  fold kept in Hk.
  unfold throttle. simpl. fold kept.
  destruct (Z.of_nat (length kept) >=? max_requests self) eqn:E.
  - destruct kept as [|oldest rest] eqn:Ek.
    + right. right. simpl in E. split; [lia|]. split; reflexivity.
    + right. left. split; [lia|]. exists oldest, rest.
      assert (Hlt : clock w - oldest < time_window self)
        by (apply (evict_head _ _ _ rest (request_times self)); exact Ek).
      inversion Hk; subst.
      split; [reflexivity|]. split; [lia|].
      replace (Z.max 0 (time_window self - (clock w - oldest)))
        with (time_window self - (clock w - oldest)) by lia.
      reflexivity.
  - left. split; [lia | reflexivity].
Qed.

(** ** The deque is kept in time order *)

(** X11: in every state a run reaches from a new instance, the recorded
    timestamps are in non-decreasing order and none is later than the
    clock. *)
Theorem deque_in_time_order (transport : nat -> string -> Reply)
    (N T t0 : Z) (schedule : list action) :
  let s := run transport schedule (start (fresh N T) t0) in
  StronglySorted Z.le (request_times (obj s))
  /\ Forall (fun t => t <= clock (world s)) (request_times (obj s)).
Proof.
  intros s. apply (run_timed transport schedule _ (start_timed N T t0)).
Qed.

(** ** A window that is not positive *)

(** X10: with [time_window <= 0] and a positive limit the limiter does
    nothing: in every state a run reaches, [throttle] returns without
    sleeping and leaves the deque holding the current time only. *)
Theorem nonpositive_window_never_waits (transport : nat -> string -> Reply)
    (N T t0 : Z) (schedule : list action) :
  1 <= N -> T <= 0 ->
  let s := run transport schedule (start (fresh N T) t0) in
  throttle (obj s) (world s) =
  (set_request_times (obj s) [clock (world s)], world s, Return tt).
Proof.
  intros HN HT s.
  destruct (run_timed transport schedule _ (start_timed N T t0)) as [_ Hb].
  destruct (run_config transport schedule (start (fresh N T) t0)) as [EN ET].
  fold s in Hb, EN, ET. simpl in EN, ET.
  assert (Hk : evict T (clock (world s)) (request_times (obj s)) = []).
  { clear -Hb HT. induction Hb as [|t l Ht Hl IH]; simpl; [reflexivity|].
    replace (clock (world s) - t >=? T) with true by lia. exact IH. }
  unfold throttle. simpl. rewrite ET, EN, Hk. simpl.
  replace (0 >=? N) with false by lia. reflexivity.
Qed.

Lemma nonpositive_window_never_waits_witness :
  let s := run (answering 200 "ok" 0)
             [Push (Request (plain "a")); Push (Request (plain "b")); Step; Step]
             (start (fresh 1 0) 5) in
  throttle (obj s) (world s) =
  (set_request_times (obj s) [5], world s, Return tt).
Proof.
  apply (nonpositive_window_never_waits (answering 200 "ok" 0) 1 0 5
           [Push (Request (plain "a")); Push (Request (plain "b")); Step; Step]);
    lia.
Defined.

(** ** How many timestamps the deque holds *)

Section Deque.

Variable transport : nat -> string -> Reply.

Lemma evict_length (T now : Z) (times : list Z) :
  (length (evict T now times) <= length times)%nat.
Proof.
  induction times as [|t l IH]; simpl; [lia|].
  destruct (now - t >=? T); simpl; lia.
Qed.

(** No more timestamps are recorded than fetches were issued. *)
Lemma run_recorded_le_fetches (schedule : list action) :
  forall s : Sys,
  (length (request_times (obj s)) <= fetches (world s))%nat ->
  (length (request_times (obj (run transport schedule s)))
   <= fetches (world (run transport schedule s)))%nat.
Proof.
  induction schedule as [|a rest IH]; intros s H; simpl; [exact H|].
  apply IH. destruct a as [request| |d]; simpl; try exact H.
  unfold iteration. destruct (task s); try exact H.
  destruct (negb _ || negb _); [|exact H].
  destruct (queue (obj s)) as [|request rest']; [exact H|].
  destruct request as [|r]; [exact H|].
  pose proof (throttle_times (set_queue (obj s) rest') (world s)) as Ht.
  pose proof (throttle_world (set_queue (obj s) rest') (world s)) as Hw.
  destruct (throttle (set_queue (obj s) rest') (world s)) as [[self1 w1] [u|e]];
    simpl in *; destruct Hw as (_ & Hf & _); rewrite Ht.
  - rewrite make_request_fetches, Hf, length_app. simpl.
    pose proof (evict_length (time_window (obj s)) (clock (world s))
                  (request_times (obj s))). lia.
  - rewrite Hf.
    pose proof (evict_length (time_window (obj s)) (clock (world s))
                  (request_times (obj s))). lia.
Qed.

End Deque.

(** X1: the first [max_requests] dispatches of a run are never delayed:
    while fewer than [max_requests] fetches have been issued, [throttle]
    returns at once, without sleeping. *)
Theorem first_requests_not_delayed (transport : nat -> string -> Reply)
    (N T t0 : Z) (schedule : list action) :
  let s := run transport schedule (start (fresh N T) t0) in
  Z.of_nat (fetches (world s)) < N ->
  snd (throttle (obj s) (world s)) = Return tt
  /\ snd (fst (throttle (obj s) (world s))) = world s.
Proof.
  intros s Hf.
  destruct (run_timed transport schedule _ (start_timed N T t0)) as [_ Hb].
  destruct (run_config transport schedule (start (fresh N T) t0)) as [EN ET].
  pose proof (run_recorded_le_fetches transport schedule
                (start (fresh N T) t0) (Nat.le_0_l _)) as Hl.
  fold s in Hb, EN, ET, Hl. simpl in EN, ET.
  pose proof (evict_length (time_window (obj s)) (clock (world s))
                (request_times (obj s))) as He.
  destruct (throttle_shape (obj s) (world s) Hb)
    as [[_ E]|[[Hge _]|(Hn & _)]]; [|lia|lia].
  rewrite E. split; reflexivity.
Qed.

Lemma first_requests_not_delayed_witness :
  let s := run (answering 200 "ok" 0)
             [Push (Request (plain "a")); Push (Request (plain "b")); Step; Step]
             (start (fresh 3 10) 0) in
  snd (throttle (obj s) (world s)) = Return tt
  /\ snd (fst (throttle (obj s) (world s))) = world s.
Proof.
  apply (first_requests_not_delayed (answering 200 "ok" 0) 3 10 0
           [Push (Request (plain "a")); Push (Request (plain "b")); Step; Step]).
  vm_compute. reflexivity.
Defined.

(** ** What the loop reports *)

Section Reports.

Variable transport : nat -> string -> Reply.

Lemma reported_app (a b : list event) :
  reported (a ++ b) = reported a ++ reported b.
Proof.
  induction a as [|e a IH]; simpl; [reflexivity|].
  destruct e as [n u t|n d|[|u st|u x]]; simpl; rewrite IH; reflexivity.
Qed.

Lemma reported_request_events (n : nat) (t : Z) (r : RequestWrapper) (reply : Reply) :
  reported (request_events n t r reply) = [url r].
Proof.
  unfold request_events. simpl.
  destruct (answer reply) as [response|e]; [|reflexivity].
  destruct (text response) as [data|e]; [|reflexivity].
  destruct (callback r) as [cb|]; [|reflexivity].
  simpl. destruct (cb data); reflexivity.
Qed.

Lemma dispatched_urls_request_events (n : nat) (t : Z) (r : RequestWrapper)
    (reply : Reply) :
  dispatched_urls (request_events n t r reply) = [url r].
Proof. unfold dispatched_urls. rewrite dispatches_request_events. reflexivity. Qed.

Lemma iteration_reported (s : Sys) :
  reported (trace (world s)) = dispatched_urls (trace (world s)) ->
  reported (trace (world (iteration transport s)))
  = dispatched_urls (trace (world (iteration transport s))).
Proof.
  intros H. unfold iteration.
  destruct (task s); try exact H.
  destruct (negb _ || negb _); [|exact H].
  destruct (queue (obj s)) as [|request rest]; [exact H|].
  destruct request as [|r].
  - simpl. rewrite reported_app, dispatched_urls_app, H. reflexivity.
  - pose proof (throttle_world (set_queue (obj s) rest) (world s)) as Hw.
    destruct (throttle (set_queue (obj s) rest) (world s)) as [[self1 w1] [u|e]];
      destruct Hw as (_ & Hf & Htr); simpl.
    + rewrite make_request_trace, reported_app, dispatched_urls_app, Htr, H.
      rewrite reported_request_events, dispatched_urls_request_events.
      reflexivity.
    + rewrite Htr. exact H.
Qed.

Lemma run_reported (schedule : list action) :
  forall s : Sys,
  reported (trace (world s)) = dispatched_urls (trace (world s)) ->
  reported (trace (world (run transport schedule s)))
  = dispatched_urls (trace (world (run transport schedule s))).
Proof.
  induction schedule as [|a rest IH]; intros s H; simpl; [exact H|].
  apply IH. destruct a; simpl; try exact H. apply iteration_reported. exact H.
Qed.

End Reports.

(** X7: every dispatch is reported once: in every run, the urls named by
    the "completed" and "Error fetching" lines printed, in order, are the
    urls dispatched, in order; so there are as many such lines as
    dispatches. *)
Theorem every_dispatch_reported (transport : nat -> string -> Reply)
    (N T t0 : Z) (schedule : list action) :
  let tr := trace (world (run transport schedule (start (fresh N T) t0))) in
  reported tr = dispatched_urls tr
  /\ length (reported tr) = length (dispatches tr).
Proof.
  intros tr.
  assert (H : reported tr = dispatched_urls tr)
    by (apply run_reported; reflexivity).
  split; [exact H|].
  rewrite H. unfold dispatched_urls. apply length_map.
Qed.

(** ** Leaving the loop *)

Section Leaving.

Variable transport : nat -> string -> Reply.

Lemma has_stop_app (a b : list item) :
  has_stop (a ++ b) = has_stop a || has_stop b.
Proof. unfold has_stop. apply existsb_app. Qed.

Lemma iteration_no_stop (s : Sys) :
  stop_signal_received (obj s) = false -> task s <> Finished ->
  has_stop (queue (obj s)) = false ->
  stop_signal_received (obj (iteration transport s)) = false
  /\ task (iteration transport s) <> Finished
  /\ has_stop (queue (obj (iteration transport s))) = false.
Proof.
  intros Hf Ht Hq. unfold iteration.
  destruct (task s) eqn:Et; try (rewrite Et; auto).
  rewrite Hf. simpl.
  destruct (queue (obj s)) as [|request rest] eqn:Eq;
    [rewrite Et, Eq; auto|].
  destruct request as [|r]; [discriminate|].
  simpl in Hq.
  pose proof (throttle_config (set_queue (obj s) rest) (world s)) as Hc.
  destruct (throttle (set_queue (obj s) rest) (world s)) as [[self1 w1] [u|e]];
    destruct Hc as (_ & _ & Q & F); simpl in *; rewrite Q, F;
    repeat split; auto; discriminate.
Qed.

Lemma run_no_stop (schedule : list action) :
  forall s : Sys,
  has_stop (pushed schedule) = false ->
  stop_signal_received (obj s) = false -> task s <> Finished ->
  has_stop (queue (obj s)) = false ->
  stop_signal_received (obj (run transport schedule s)) = false
  /\ task (run transport schedule s) <> Finished.
Proof.
  induction schedule as [|a rest IH]; intros s Hp Hf Ht Hq; simpl; [auto|].
  destruct a as [request| |d]; simpl in *.
  - apply orb_false_elim in Hp. destruct Hp as [Hr Hp].
    apply IH; simpl; auto.
    rewrite has_stop_app, Hq. simpl. rewrite Hr. reflexivity.
  - destruct (iteration_no_stop s Hf Ht Hq) as (A & B & C).
    apply IH; assumption.
  - apply IH; assumption.
Qed.

(** Once the task is over, a schedule only lengthens the queue. *)
Lemma run_after_end (schedule : list action) :
  forall s : Sys,
  task s <> Running ->
  task (run transport schedule s) = task s
  /\ queue (obj (run transport schedule s)) = queue (obj s) ++ pushed schedule
  /\ request_times (obj (run transport schedule s)) = request_times (obj s)
  /\ trace (world (run transport schedule s)) = trace (world s)
  /\ fetches (world (run transport schedule s)) = fetches (world s).
Proof.
  induction schedule as [|a rest IH]; intros s Ht; simpl.
  - rewrite app_nil_r. auto.
  - destruct a as [request| |d]; simpl.
    + destruct (IH {| obj := add_request (obj s) request;
                      world := world s; task := task s |} Ht)
        as (A & B & C & D & E).
      simpl in *. rewrite A, B, C, D, E, <- app_assoc. auto.
    + rewrite iteration_idle by exact Ht. apply IH. exact Ht.
    + destruct (IH {| obj := obj s; world := sleep (Z.of_nat d) (world s);
                      task := task s |} Ht)
        as (A & B & C & D & E).
      simpl in *. rewrite A, B, C, D, E. auto.
Qed.

End Leaving.

(** X5: the loop returns only on a stop signal: under a schedule that
    never pushes ["STOP"], the stop flag stays clear and
    [process_requests] does not return. *)
Theorem no_return_without_stop (transport : nat -> string -> Reply)
    (N T t0 : Z) (schedule : list action) :
  has_stop (pushed schedule) = false ->
  let s := run transport schedule (start (fresh N T) t0) in
  stop_signal_received (obj s) = false /\ task s <> Finished.
Proof.
  intros Hp s. apply run_no_stop; simpl; auto. discriminate.
Qed.

Lemma no_return_without_stop_witness :
  let s := run (answering 200 "ok" 1)
             [Push (Request (plain "a")); Step; Step; Tick 5; Step]
             (start (fresh 1 10) 0) in
  stop_signal_received (obj s) = false /\ task s <> Finished.
Proof.
  apply (no_return_without_stop (answering 200 "ok" 1) 1 10 0
           [Push (Request (plain "a")); Step; Step; Tick 5; Step]).
  reflexivity.
Defined.

(** X6: once [process_requests] has returned or has been ended by an
    exception, nothing is consumed any more: whatever is pushed afterwards
    stays in the queue, in order, and the deque and the trace do not
    change. *)
Theorem pushes_after_end_stay_queued (transport : nat -> string -> Reply)
    (s : Sys) (schedule : list action) :
  task s <> Running ->
  task (run transport schedule s) = task s
  /\ queue (obj (run transport schedule s)) = queue (obj s) ++ pushed schedule
  /\ request_times (obj (run transport schedule s)) = request_times (obj s)
  /\ trace (world (run transport schedule s)) = trace (world s)
  /\ fetches (world (run transport schedule s)) = fetches (world s).
Proof. apply run_after_end. Qed.

Lemma pushes_after_end_stay_queued_witness :
  let s := run (answering 200 "ok" 1) [Push STOP; Step; Step]
             (start (fresh 1 10) 0) in
  let s' := run (answering 200 "ok" 1)
              [Push (Request (plain "late")); Step; Step] s in
  task s' = Finished
  /\ queue (obj s') = [Request (plain "late")]
  /\ trace (world s') = [Print Stopping].
Proof.
  pose proof (pushes_after_end_stay_queued (answering 200 "ok" 1)
                (run (answering 200 "ok" 1) [Push STOP; Step; Step]
                   (start (fresh 1 10) 0))
                [Push (Request (plain "late")); Step; Step]
                ltac:(vm_compute; discriminate)) as (A & B & _ & D & _).
  split; [exact A|]. split; [exact B | exact D].
Defined.

(** ** A limit that is not positive *)

Section Starved.

Variable transport : nat -> string -> Reply.

Lemma iteration_starved (s : Sys) :
  max_requests (obj s) <= 0 -> request_times (obj s) = [] ->
  dispatches (trace (world s)) = [] -> callbacks (trace (world s)) = [] ->
  (forall e, task s = Failed e -> e = IndexError) ->
  let s' := iteration transport s in
  max_requests (obj s') <= 0
  /\ request_times (obj s') = []
  /\ dispatches (trace (world s')) = []
  /\ callbacks (trace (world s')) = []
  /\ (forall e, task s' = Failed e -> e = IndexError).
Proof.
  intros HN Hts Hd Hc Hk. unfold iteration.
  destruct (task s) eqn:Et; try (simpl; rewrite Et; auto).
  destruct (negb _ || negb _);
    [|simpl; repeat split; auto; discriminate].
  destruct (queue (obj s)) as [|request rest]; [simpl; rewrite Et; auto|].
  destruct request as [|r].
  - simpl. rewrite dispatches_app, callbacks_app, Hd, Hc.
    repeat split; auto; discriminate.
  - unfold throttle. simpl. rewrite Hts. simpl.
    replace (0 >=? max_requests (obj s)) with true by lia.
    simpl. repeat split; auto. intros e H. injection H as <-. reflexivity.
Qed.

Lemma run_starved (schedule : list action) :
  forall s : Sys,
  max_requests (obj s) <= 0 -> request_times (obj s) = [] ->
  dispatches (trace (world s)) = [] -> callbacks (trace (world s)) = [] ->
  (forall e, task s = Failed e -> e = IndexError) ->
  let s' := run transport schedule s in
  request_times (obj s') = []
  /\ dispatches (trace (world s')) = []
  /\ callbacks (trace (world s')) = []
  /\ (forall e, task s' = Failed e -> e = IndexError).
Proof.
  induction schedule as [|a rest IH]; intros s HN Hts Hd Hc Hk; simpl; [auto|].
  destruct a as [request| |d]; simpl.
  - apply IH; simpl; assumption.
  - destruct (iteration_starved s HN Hts Hd Hc Hk) as (A & B & C & D & E).
    apply IH; assumption.
  - apply IH; simpl; assumption.
Qed.

End Starved.

(** X8: with [max_requests <= 0] no request is ever dispatched and no
    handler is ever called: the first request the loop pops ends the task
    with [IndexError], and as long as that has not happened every request
    pushed is still in the queue. *)
Theorem nonpositive_limit_dispatches_nothing (transport : nat -> string -> Reply)
    (N T t0 : Z) (schedule : list action) :
  N <= 0 ->
  let s := run transport schedule (start (fresh N T) t0) in
  dispatches (trace (world s)) = []
  /\ callbacks (trace (world s)) = []
  /\ request_times (obj s) = []
  /\ (forall e, task s = Failed e -> e = IndexError)
  /\ ((forall e, task s <> Failed e) ->
      work_urls (queue (obj s)) = work_urls (pushed schedule))
  /\ (forall r rest, task s = Running -> queue (obj s) = Request r :: rest ->
      task (iteration transport s) = Failed IndexError).
Proof.
  intros HN s.
  destruct (run_starved transport schedule (start (fresh N T) t0))
    as (A & B & C & D); simpl; auto; try discriminate.
  fold s in A, B, C, D.
  split; [exact B|]. split; [exact C|]. split; [exact A|]. split; [exact D|].
  split.
  - intros Hn.
    pose proof (run_serial transport schedule [] _ (start_serial N T t0)) as H.
    fold s in H. simpl app in H.
    destruct H as ((lost & Hb & Hl) & _).
    rewrite (Hl Hn) in Hb. unfold dispatched_urls in Hb. rewrite B in Hb.
    simpl in Hb. symmetry. exact Hb.
  - intros r rest Ht Hq.
    destruct (run_config transport schedule (start (fresh N T) t0)) as [EN _].
    fold s in EN. simpl in EN.
    unfold iteration. rewrite Ht, Hq, orb_true_r.
    unfold throttle. simpl. rewrite A, EN. simpl.
    replace (0 >=? N) with true by lia. reflexivity.
Qed.

Lemma nonpositive_limit_dispatches_nothing_witness :
  let s := run (answering 200 "ok" 1)
             [Push (Request (plain "a")); Push (Request (plain "b")); Step; Step]
             (start (fresh 0 10) 0) in
  dispatches (trace (world s)) = []
  /\ task s = Failed IndexError
  /\ queue (obj s) = [Request (plain "b")].
Proof.
  pose proof (nonpositive_limit_dispatches_nothing (answering 200 "ok" 1) 0 10 0
                [Push (Request (plain "a")); Push (Request (plain "b")); Step; Step]
                ltac:(lia)) as H.
  cbv zeta in H. destruct H as (A & _).
  split; [exact A|]. split; reflexivity.
Defined.

(** ** Shutting down *)

(** X9: with a positive limit, a loop that is still running shuts down
    cleanly: after ["STOP"] is pushed, one pass per queued item and one more
    make [process_requests] return, with the queue empty and every request
    pushed since the start dispatched, in push order. *)
Theorem graceful_shutdown (transport : nat -> string -> Reply)
    (N T t0 : Z) (schedule : list action) :
  1 <= N ->
  let s := run transport schedule (start (fresh N T) t0) in
  task s = Running ->
  let s' := process_requests transport (length (queue (obj s)) + 2)
              (perform transport (Push STOP) s) in
  task s' = Finished
  /\ queue (obj s') = []
  /\ dispatched_urls (trace (world s')) = work_urls (pushed schedule).
Proof.
  intros HN s Ht s'.
  destruct (run_config transport schedule (start (fresh N T) t0)) as [EN _].
  fold s in EN. simpl in EN.
  set (s1 := perform transport (Push STOP) s) in *.
  assert (Hq : queue (obj s1) = (queue (obj s) ++ [STOP]) ++ [])
    by (simpl; rewrite app_nil_r; reflexivity).
  assert (HN1 : 1 <= max_requests (obj s1)) by (simpl; lia).
  destruct (drain transport (queue (obj s) ++ [STOP]) s1 [] Ht Hq HN1)
    as (D1 & D2 & D3 & _ & D5 & _).
  rewrite length_app in D1, D2, D3, D5. simpl length in D1, D2, D3, D5.
  fold (process_requests transport (length (queue (obj s)) + 1) s1)
    in D1, D2, D3, D5.
  set (s2 := process_requests transport (length (queue (obj s)) + 1) s1) in *.
  rewrite has_stop_app in D3. simpl in D3. rewrite !orb_true_r in D3.
  assert (Es' : s' = {| obj := obj s2; world := world s2; task := Finished |}).
  { unfold s'.
    replace (length (queue (obj s)) + 2)%nat
      with ((length (queue (obj s)) + 1) + 1)%nat by lia.
    rewrite process_requests_add. fold s2.
    unfold process_requests. simpl. apply iteration_exit; assumption. }
  rewrite Es'. simpl.
  split; [reflexivity|]. split; [exact D2|].
  rewrite D5, work_urls_app. simpl. rewrite app_nil_r.
  pose proof (run_serial transport schedule [] _ (start_serial N T t0)) as H.
  fold s in H. simpl app in H.
  destruct H as ((lost & Hb & Hl) & _).
  rewrite Hl in Hb by (intros e; congruence).
  symmetry. exact Hb.
Qed.

Lemma graceful_shutdown_witness :
  let s := run (answering 200 "ok" 1)
             [Push (Request (plain "a")); Push (Request (plain "b")); Step;
              Push (Request (plain "c"))]
             (start (fresh 1 10) 0) in
  let s' := process_requests (answering 200 "ok" 1) 4
              (perform (answering 200 "ok" 1) (Push STOP) s) in
  task s' = Finished
  /\ queue (obj s') = []
  /\ dispatched_urls (trace (world s')) = ["a"; "b"; "c"]%string.
Proof.
  apply (graceful_shutdown (answering 200 "ok" 1) 1 10 0
           [Push (Request (plain "a")); Push (Request (plain "b")); Step;
            Push (Request (plain "c"))]);
    [lia | reflexivity].
Defined.

(** ** The stop flag *)

Lemma run_stop_flag_kept (transport : nat -> string -> Reply)
    (schedule : list action) :
  forall s : Sys,
  stop_signal_received (obj s) = true ->
  stop_signal_received (obj (run transport schedule s)) = true.
Proof.
  induction schedule as [|a rest IH]; intros s H; simpl; [exact H|].
  apply IH. destruct a as [request| |d]; simpl; try exact H.
  unfold iteration. destruct (task s); try exact H.
  destruct (negb _ || negb _); [|exact H].
  destruct (queue (obj s)) as [|request rest']; [exact H|].
  destruct request as [|r]; [reflexivity|].
  pose proof (throttle_config (set_queue (obj s) rest') (world s)) as Hc.
  destruct (throttle (set_queue (obj s) rest') (world s)) as [[self1 w1] [u|e]];
    destruct Hc as (_ & _ & _ & F); simpl in *; rewrite F; exact H.
Qed.

(** X12: a stop signal cannot be taken back: once the flag is set nothing
    clears it, so from then on the loop returns on the first pass that finds
    the queue empty, whatever was pushed and consumed in between. *)
Theorem stop_is_permanent (transport : nat -> string -> Reply)
    (s : Sys) (schedule : list action) :
  stop_signal_received (obj s) = true ->
  let s' := run transport schedule s in
  stop_signal_received (obj s') = true
  /\ (task s' = Running -> queue (obj s') = [] ->
      task (iteration transport s') = Finished).
Proof.
  intros H s'.
  assert (Hf : stop_signal_received (obj s') = true)
    by (apply run_stop_flag_kept; exact H).
  split; [exact Hf|].
  intros Ht Hq. rewrite (iteration_exit transport s' Ht Hf Hq). reflexivity.
Qed.

Lemma stop_is_permanent_witness :
  let s := run (answering 200 "ok" 1) [Push STOP; Push (Request (plain "a")); Step]
             (start (fresh 1 10) 0) in
  let s' := run (answering 200 "ok" 1) [Push (Request (plain "b")); Step; Step] s in
  stop_signal_received (obj s') = true
  /\ task (iteration (answering 200 "ok" 1) s') = Finished.
Proof.
  pose proof (stop_is_permanent (answering 200 "ok" 1)
                (run (answering 200 "ok" 1)
                   [Push STOP; Push (Request (plain "a")); Step]
                   (start (fresh 1 10) 0))
                [Push (Request (plain "b")); Step; Step] eq_refl) as H.
  cbv zeta in H. destruct H as [A B].
  split; [exact A | apply B; reflexivity].
Defined.
